(** * Tagging / location / segmentation pipeline: a shallow embedding

    The development follows the three Python sources of the repository:

    - [src/location/grounding_dino_location.py]  (module [Gdino])
    - [src/tagging/lvlm_llm_tagging/lvlm_description/llava_description.py]
      (module [Llava])
    - [src/pipeline.py]  (module [Pipeline])

    Python values are modelled as the code uses them: [str] as [string],
    [float] as the kernel's binary64 numbers, insertion-ordered [dict]s as
    association lists, exceptions as a result type, and the file system and
    the clock as an explicit world that every effectful operation threads. *)

From Stdlib Require Import Floats String Ascii List ZArith Lia Bool.
From Stdlib Require Import DecimalString DecimalNat DecimalFacts.
From stdpp Require Import base gmap strings list.
Import ListNotations.

Local Open Scope string_scope.
Local Open Scope list_scope.

(** ** Python prelude *)

Module Py.

(** The exceptions the three sources raise themselves or let through. *)
Inductive exn : Type :=
| FileNotFoundError
| NotADirectoryError
| IsADirectoryError
| FileExistsError
| JSONDecodeError
| IndexError
| AttributeError
| UnboundLocalError
| TimeoutError
| TypeError
| RuntimeError (msg : string).

Inductive result (A : Type) : Type :=
| Ok (a : A)
| Raise (e : exn).
Arguments Ok {A} a.
Arguments Raise {A} e.

Definition rbind {A B} (r : result A) (k : A -> result B) : result B :=
  match r with
  | Ok a => k a
  | Raise e => Raise e
  end.

(** [sep.join(items)]: the first item, then each further item preceded by
    the separator. *)
Definition join (sep : string) (items : list string) : string :=
  match items with
  | [] => ""
  | x :: rest => fold_left (fun acc y => acc +:+ sep +:+ y) rest x
  end.

(** [l[i]] for a non-negative index. *)
Definition index {A} (l : list A) (i : nat) : result A :=
  match nth_error l i with
  | Some x => Ok x
  | None => Raise IndexError
  end.

(** [zip(a, b, c)] stops at the shortest of its arguments. *)
Fixpoint zip3 {A B C} (a : list A) (b : list B) (c : list C)
  : list (A * B * C) :=
  match a, b, c with
  | x :: a', y :: b', z :: c' => (x, y, z) :: zip3 a' b' c'
  | _, _, _ => []
  end.

(** [float(x)] on a value that already is a [float]. *)
Definition float_ (x : float) : float := x.

(** [a > b] on floats. *)
Definition gt (a b : float) : bool := PrimFloat.ltb b a.

(** [a == b] on floats. *)
Definition feq (a b : float) : bool := PrimFloat.eqb a b.

(** [str(n)] for a non-negative [int]. *)
Definition str_of_nat (n : nat) : string :=
  NilZero.string_of_uint (Nat.to_uint n).

(** [s.endswith(suffix)] *)
Definition endswith (s suffix : string) : bool :=
  let n := String.length s in
  let k := String.length suffix in
  (k <=? n)%nat && String.eqb (substring (n - k) k s) suffix.

(** [s.startswith(prefix)] *)
Definition startswith (s pre : string) : bool := String.prefix pre s.

(** Effectful code threads a state [S] (the world it runs in) and either
    returns a value or raises; a raised exception keeps the state reached. *)
Definition M (S A : Type) : Type := S -> result A * S.

Definition ret {S A} (a : A) : M S A := fun s => (Ok a, s).

Definition throw {S A} (e : exn) : M S A := fun s => (Raise e, s).

Definition bind {S A B} (c : M S A) (k : A -> M S B) : M S B :=
  fun s =>
    match c s with
    | (Ok a, s') => k a s'
    | (Raise e, s') => (Raise e, s')
    end.

(** A computation that only reads the state. *)
Definition reads {S A} (f : S -> result A) : M S A := fun s => (f s, s).

(** A computation that only changes the state. *)
Definition writes {S} (f : S -> S) : M S unit := fun s => (Ok tt, f s).

Definition lift {S A} (r : result A) : M S A := fun s => (r, s).

(** [if b: body] *)
Definition when {S} (b : bool) (body : M S unit) : M S unit :=
  if b then body else ret tt.

Notation "x <- c1 ;; c2" := (bind c1 (fun x => c2))
  (at level 100, c1 at next level, right associativity).
Notation "c1 ;; c2" := (bind c1 (fun _ => c2))
  (at level 100, right associativity).

End Py.

Import Py.

(** ** Data exchanged between the stages *)

Module Data.

(** A tag set: a [dict] from keys to labels, in insertion order. *)
Definition tags := list (string * string).

Record bbox := {
  x_min : float;
  y_min : float;
  x_max : float;
  y_max : float
}.

(** One entry of the JSON result: [{"label", "score", "bbox"}]. *)
Record candidate := {
  label : string;
  score : float;
  box : bbox
}.

(** What [json.load] can hand back and [json.dump] is given. *)
Inductive json : Type :=
| JTags (t : tags)
| JDetections (l : list candidate)
| JOther.

(** A PIL image: a picture read from a file, or a copy of one on which
    [draw_bounding_boxes] has drawn the given candidates. *)
Inductive image : Type :=
| Photo (name : string)
| Boxes (base : image) (drawn : list candidate).

(** What a file holds. *)
Inductive content : Type :=
| Text (s : string)
| Json (v : json)
| Picture (img : image).

End Data.

Import Data.

(** ** The operating system as the sources use it: files and the clock *)

Module Os.

(** [time.localtime()] *)
Record struct_time := {
  tm_year : nat;
  tm_mon : nat;
  tm_mday : nat;
  tm_hour : nat;
  tm_min : nat;
  tm_sec : nat
}.

(** A path names a file (with its modification time and content) or a
    directory (with its modification time and the names [os.listdir] gives,
    in the order it gives them). *)
Inductive node : Type :=
| File (mtime : float) (c : content)
| Dir (mtime : float) (entries : list string).

(** Paths are compared as the strings they are written as. *)
Record world := {
  fs : gmap string node;
  localtime : struct_time;
  now : float
}.

Definition set_fs (f : gmap string node -> gmap string node) (w : world) : world :=
  {| fs := f (fs w); localtime := localtime w; now := now w |}.

Definition pad2 (n : nat) : string :=
  if (n <? 10)%nat then "0" +:+ str_of_nat n else str_of_nat n.

(** [time.strftime("%Y-%m-%d_%H-%M-%S")], for a year of four digits. *)
Definition strftime (t : struct_time) : string :=
  str_of_nat (tm_year t) +:+ "-" +:+ pad2 (tm_mon t) +:+ "-" +:+ pad2 (tm_mday t)
  +:+ "_" +:+ pad2 (tm_hour t) +:+ "-" +:+ pad2 (tm_min t) +:+ "-" +:+ pad2 (tm_sec t).

(** One step of [os.path.join]: an absolute component replaces what came
    before it, otherwise it is appended after a separator. *)
Definition join2 (path b : string) : string :=
  if startswith b "/" then b
  else if String.eqb path "" || endswith path "/" then path +:+ b
  else path +:+ "/" +:+ b.

(** [os.path.join] of a first component and the further ones. *)
Definition path_join (a : string) (p : list string) : string :=
  fold_left join2 p a.

Fixpoint basename_from (acc p : string) : string :=
  match p with
  | EmptyString => acc
  | String c rest =>
      if Ascii.eqb c "/"%char then basename_from "" rest
      else basename_from (acc +:+ String c "") rest
  end.

(** [os.path.basename(p)]: what follows the last separator. *)
Definition basename (p : string) : string := basename_from "" p.

(** [os.listdir(d)] *)
Definition listdir (d : string) (w : world) : result (list string) :=
  match fs w !! d with
  | Some (Dir _ entries) => Ok entries
  | Some (File _ _) => Raise NotADirectoryError
  | None => Raise FileNotFoundError
  end.

(** [os.path.getmtime(p)] *)
Definition getmtime (w : world) (p : string) : result float :=
  match fs w !! p with
  | Some (File m _) => Ok m
  | Some (Dir m _) => Ok m
  | None => Raise FileNotFoundError
  end.

(** [os.path.isfile(p)] *)
Definition isfile (p : string) (w : world) : bool :=
  match fs w !! p with
  | Some (File _ _) => true
  | _ => false
  end.

(** [os.path.exists(p)] *)
Definition exists_ (p : string) (w : world) : bool :=
  match fs w !! p with
  | Some _ => true
  | None => false
  end.

(** [os.makedirs(p, exist_ok=...)]: the directory is created empty, stamped
    with the current time; an existing directory is accepted only with
    [exist_ok]. *)
Definition makedirs (p : string) (exist_ok : bool) : M world unit :=
  fun w =>
    match fs w !! p with
    | Some (Dir _ _) => if exist_ok then (Ok tt, w) else (Raise FileExistsError, w)
    | Some (File _ _) => (Raise FileExistsError, w)
    | None => (Ok tt, set_fs (insert p (Dir (now w) [])) w)
    end.

(** [with open(p, "w") as f: f.write(c)] (and [Image.save(p)]): whatever file
    was at [p] is replaced; no check is made that [p] is free. *)
Definition write_file (p : string) (c : content) : M world unit :=
  fun w =>
    match fs w !! p with
    | Some (Dir _ _) => (Raise IsADirectoryError, w)
    | _ => (Ok tt, set_fs (insert p (File (now w) c)) w)
    end.

(** [with open(p, "r") as f: json.load(f)] *)
Definition load_json (p : string) (w : world) : result json :=
  match fs w !! p with
  | Some (File _ (Json v)) => Ok v
  | Some (File _ _) => Raise JSONDecodeError
  | Some (Dir _ _) => Raise IsADirectoryError
  | None => Raise FileNotFoundError
  end.

(** [Image.open(p)] on a path known to be a file. *)
Definition image_open (p : string) (w : world) : result image :=
  match fs w !! p with
  | Some (File _ (Picture img)) => Ok img
  | Some (File _ _) => Raise (RuntimeError "UnidentifiedImageError")
  | Some (Dir _ _) => Raise IsADirectoryError
  | None => Raise FileNotFoundError
  end.

(** [max(items, key=key)] on a non-empty list: the running best is replaced
    only by an item whose key is strictly greater. *)
Fixpoint max_from {A} (key : A -> result float) (best : A) (bestval : float)
  (items : list A) : result A :=
  match items with
  | [] => Ok best
  | item :: rest =>
      rbind (key item) (fun val =>
      if Py.gt val bestval then max_from key item val rest
      else max_from key best bestval rest)
  end.

Definition max_by {A} (key : A -> result float) (items : list A) : result A :=
  match items with
  | [] => Raise (RuntimeError "ValueError")
  | first :: rest => rbind (key first) (fun v => max_from key first v rest)
  end.

End Os.

Import Os.

(** ** The location stage: [grounding_dino_location.py] *)

Module Gdino.

(** [tags.values()] *)
Definition values (t : tags) : list string := map snd t.

(** The detector's post-processed output: a [dict] that may hold
    ["scores"] and ["boxes"] (tensors) and ["labels"] (a list). *)
Record raw_results := {
  raw_scores : option (list float);
  raw_boxes : option (list (list float));
  raw_labels : option (list string)
}.

(** [results.get(key, <empty>)], after [.tolist()] for the tensors. *)
Definition get_or_empty {A} (o : option (list A)) : list A :=
  match o with
  | Some l => l
  | None => []
  end.

(** [score_threshold: float = 0.3] of [__init__]. *)
#[warnings="-inexact-float"]
Definition default_score_threshold : float := 0.3%float.

(** [json_to_gdino_prompt] *)
Definition json_to_gdino_prompt (t : tags) : string :=
  let tags_list := values t in
  join ". " tags_list +:+ ".".

(** The body of the [for] loop of [gdino_results_to_json]. *)
Definition make_obj (l : string) (b : list float) (s : float)
  : result candidate :=
  let sc := float_ s in
  rbind (index b 0) (fun b0 =>
  rbind (index b 1) (fun b1 =>
  rbind (index b 2) (fun b2 =>
  rbind (index b 3) (fun b3 =>
  Ok {| label := l; score := sc;
        box := {| x_min := b0; y_min := b1; x_max := b2; y_max := b3 |} |})))).

Fixpoint collect (zs : list (string * list float * float))
  : result (list candidate) :=
  match zs with
  | [] => Ok []
  | (l, b, s) :: rest =>
      rbind (make_obj l b s) (fun obj =>
      rbind (collect rest) (fun objs => Ok (obj :: objs)))
  end.

(** [gdino_results_to_json] *)
Definition gdino_results_to_json (r : raw_results) : result (list candidate) :=
  let scores := get_or_empty (raw_scores r) in
  let boxes := get_or_empty (raw_boxes r) in
  let labels := get_or_empty (raw_labels r) in
  collect (zip3 labels boxes scores).

(** [filter_confidence] *)
Definition filter_confidence (results : list candidate) (threshold : float)
  : list candidate :=
  List.filter (fun r => Py.gt (score r) threshold) results.

(** [draw_bounding_boxes]: a copy of the input image with one rectangle and
    one caption per result. *)
Definition draw_bounding_boxes (input_image : image) (results : list candidate)
  : image :=
  Boxes input_image results.

(** The [.json] entries of a listing, each joined to the directory. *)
Definition json_files (input_tags_dir : string) (entries : list string)
  : list string :=
  map (fun f => path_join input_tags_dir [f])
      (List.filter (fun f => endswith f ".json") entries).

(** [read_input_tags] *)
Definition read_input_tags (input_tags_dir : string) (w : world)
  : result (json * string) :=
  rbind (listdir input_tags_dir w) (fun entries =>
  let files := json_files input_tags_dir entries in
  match files with
  | [] => Raise FileNotFoundError
  | _ =>
      rbind (max_by (getmtime w) files) (fun latest_json_path =>
      let filename := basename latest_json_path in
      rbind (load_json latest_json_path w) (fun tags_content =>
      Ok (tags_content, filename)))
  end).

(** The attributes [__init__] sets. The two output paths exist only when
    the matching flag asked for them. *)
Record GroundingDinoLocator := {
  script_dir : string;
  score_threshold : float;
  save_file_json : bool;
  save_file_jpg : bool;
  input_image : image;
  input_tags : json;
  output_file_json : option string;
  output_file_jpg : option string
}.

(** [self.<attribute>] for an attribute that may not have been set. *)
Definition attr {S A} (o : option A) : M S A :=
  match o with
  | Some a => ret a
  | None => throw AttributeError
  end.

Section Locator.

(** The processor, the model and the post-processing of its output, taken
    together: from the image and the prompt to the raw results. *)
Variable detect : image -> string -> result raw_results.

(** [__init__]; [dir] is the directory of the source file. *)
Definition init (dir : string) (input_image_name : string)
  (threshold : float) (save_json save_jpg : bool) : M world GroundingDinoLocator :=
  let input_image_path := path_join dir [".."; "input_images"; input_image_name] in
  isf <- reads (fun w => Ok (isfile input_image_path w)) ;;
  img <- (if isf : bool then reads (image_open input_image_path)
          else throw FileNotFoundError) ;;
  let input_tags_dir := path_join dir [".."; "tagging"; "output_tags"] in
  read <- reads (read_input_tags input_tags_dir) ;;
  let output_location_dir := path_join dir ["output_location"] in
  paths <- (if save_json || save_jpg then
              makedirs output_location_dir true ;;
              timestamp <- reads (fun w => Ok (strftime (localtime w))) ;;
              ret (if save_json then
                     Some (path_join output_location_dir
                             ["location_gdino_" +:+ timestamp +:+ ".json"])
                   else None,
                   if save_jpg then
                     Some (path_join output_location_dir
                             ["location_gdino_" +:+ timestamp +:+ ".jpg"])
                   else None)
            else ret (None, None)) ;;
  ret {| script_dir := dir;
         score_threshold := threshold;
         save_file_json := save_json;
         save_file_jpg := save_jpg;
         input_image := img;
         input_tags := fst read;
         output_file_json := fst paths;
         output_file_jpg := snd paths |}.

(** [locate_objects] *)
Definition locate_objects (self : GroundingDinoLocator) (tags_in : tags)
  : M world (list candidate) :=
  let text := json_to_gdino_prompt tags_in in
  results <- lift (detect (input_image self) text) ;;
  results_json <- lift (gdino_results_to_json results) ;;
  let results_json := filter_confidence results_json (score_threshold self) in
  when (save_file_json self)
    (p <- attr (output_file_json self) ;;
     write_file p (Json (JDetections results_json))) ;;
  when (save_file_jpg self)
    (let results_image := draw_bounding_boxes (input_image self) results_json in
     p <- attr (output_file_jpg self) ;;
     write_file p (Picture results_image)) ;;
  ret results_json.

End Locator.

End Gdino.

(** ** The captioning collaborator: [llava_description.py] *)

Module Llava.

(** [c.isspace()] for a character below code point 256. *)
Definition isspace (c : ascii) : bool :=
  let n := nat_of_ascii c in
  ((9 <=? n) && (n <=? 13) || (28 <=? n) && (n <=? 32)
   || (n =? 133) || (n =? 160))%nat.

(** [s.lstrip()] *)
Fixpoint lstrip (s : string) : string :=
  match s with
  | EmptyString => EmptyString
  | String c rest => if isspace c then lstrip rest else s
  end.

(** [s.rstrip()] *)
Fixpoint rstrip (s : string) : string :=
  match s with
  | EmptyString => EmptyString
  | String c rest =>
      match rstrip rest with
      | EmptyString => if isspace c then EmptyString else String c EmptyString
      | r => String c r
      end
  end.

(** [s.strip()] *)
Definition strip (s : string) : string := rstrip (lstrip s).

(** The truth value of a string: it is non-empty. *)
Definition truthy (s : string) : bool :=
  match s with
  | EmptyString => false
  | String _ _ => true
  end.

(** The attributes [__init__] and [load_image_path] set. *)
Record LlavaDescriptor := {
  script_dir : string;
  llava_model_name : string;
  prompt : string;
  iters : nat;
  save_file : bool;
  timeout : float;
  output_descriptions_dir : option string;
  input_image_path : option string
}.

(** [self.<attribute>] for an attribute that may not have been set. *)
Definition attr {S A} (o : option A) : M S A :=
  match o with
  | Some a => ret a
  | None => throw AttributeError
  end.

(** [__init__]; [dir] is the directory of the source file. *)
Definition init (dir : string) (model_name prompt_text : string) (n : nat)
  (save : bool) (timeout_s : float) : M world LlavaDescriptor :=
  out <- (if save then
            let d := path_join dir ["output_descriptions"] in
            makedirs d true ;;
            ret (Some d)
          else ret None) ;;
  ret {| script_dir := dir;
         llava_model_name := model_name;
         prompt := prompt_text;
         iters := n;
         save_file := save;
         timeout := timeout_s;
         output_descriptions_dir := out;
         input_image_path := None |}.

(** [load_image_path]. The message of the [FileNotFoundError] it means to
    raise reads [self.input_image_name], which no method sets, so a missing
    image surfaces as an [AttributeError]. *)
Definition load_image_path (self : LlavaDescriptor) (input_image_name : string)
  : M world LlavaDescriptor :=
  let p := path_join (script_dir self)
             [".."; ".."; ".."; "input_images"; input_image_name] in
  isf <- reads (fun w => Ok (isfile p w)) ;;
  if isf : bool then
    ret {| script_dir := script_dir self;
           llava_model_name := llava_model_name self;
           prompt := prompt self;
           iters := iters self;
           save_file := save_file self;
           timeout := timeout self;
           output_descriptions_dir := output_descriptions_dir self;
           input_image_path := Some p |}
  else throw AttributeError.

(** The loop that makes the output directory unique: while the current
    candidate exists, the next one is the base name with the counter
    appended. [None] when [fuel] iterations did not reach a free name. *)
Fixpoint unique_dir (fuel : nat) (base cur : string) (counter : nat) (w : world)
  : option string :=
  if exists_ cur w then
    match fuel with
    | O => None
    | S k => unique_dir k base (base +:+ "_" +:+ str_of_nat counter) (S counter) w
    end
  else Some cur.

Section Descriptor.

(** [ollama.chat(model, messages=[{role, content, images}])], reduced to the
    text of the reply. The call blocks while the model runs: it is the one
    place where the world (the clock in particular) moves on. *)
Variable chat : string -> string -> list string -> M world string.

(** The [while ... else] loop of [run]: the elapsed time is checked before
    each attempt, a reply that is empty once stripped is asked for again at
    once, and the loop condition failing raises. [None] when [fuel]
    attempts did not end the loop. *)
Fixpoint describe (fuel : nat) (self : LlavaDescriptor) (start_time : float)
  (w : world) : option (result string * world) :=
  if PrimFloat.ltb (PrimFloat.sub (now w) start_time) (timeout self) then
    match input_image_path self with
    | None => Some (Raise AttributeError, w)
    | Some img =>
        match chat (llava_model_name self) (prompt self) [img] w with
        | (Raise e, w') => Some (Raise e, w')
        | (Ok description, w') =>
            if truthy (strip description) then Some (Ok description, w')
            else
              match fuel with
              | O => None
              | S k => describe k self start_time w'
              end
        end
    end
  else Some (Raise TimeoutError, w).

(** The first part of [run]: the timestamp and the unique directory. *)
Definition prepare_output (fuel : nat) (self : LlavaDescriptor) (w : world)
  : option (result (option string) * world) :=
  if save_file self then
    let timestamp := strftime (localtime w) in
    match output_descriptions_dir self with
    | None => Some (Raise AttributeError, w)
    | Some out =>
        let base := path_join out ["description_llava_" +:+ timestamp] in
        match unique_dir fuel base base 1 w with
        | None => None
        | Some d =>
            match makedirs d false w with
            | (Ok _, w') => Some (Ok (Some timestamp), w')
            | (Raise e, w') => Some (Raise e, w')
            end
        end
    end
  else Some (Ok None, w).

(** The last part of [run]: the description is written to a text file. *)
Definition save_description (self : LlavaDescriptor) (timestamp : option string)
  (description : string) : M world unit :=
  if save_file self then
    ts <- (match timestamp with
           | Some ts => ret ts
           | None => throw UnboundLocalError
           end) ;;
    out <- attr (output_descriptions_dir self) ;;
    let output_filename := "description_llava_" +:+ ts +:+ ".txt" in
    let output_file := path_join out [output_filename] in
    write_file output_file (Text description)
  else ret tt.

(** [run]; each of its two [while] loops may take [fuel] iterations. The
    [for] loop over [range(self.iters)] only prints, and is left out. *)
Definition run (fuel : nat) (self : LlavaDescriptor) (w : world)
  : option (result string * world) :=
  match prepare_output fuel self w with
  | None => None
  | Some (Raise e, w1) => Some (Raise e, w1)
  | Some (Ok timestamp, w1) =>
      let start_time := now w1 in
      match describe fuel self start_time w1 with
      | None => None
      | Some (Raise e, w2) => Some (Raise e, w2)
      | Some (Ok description, w2) =>
          match save_description self timestamp description w2 with
          | (Ok _, w3) => Some (Ok description, w3)
          | (Raise e, w3) => Some (Raise e, w3)
          end
      end
  end.

End Descriptor.

End Llava.

(** ** The orchestrator: [pipeline.py] *)

Module Pipeline.

Definition RAM_PLUS : string := "[PIPELINE | TAGGING | RAM++]".
Definition LVLM_LLM : string := "[PIPELINE | TAGGING | DESCRIPTION & KEYWORD EXTRACTION]".
Definition LLAVA : string := "[PIPELINE | TAGGING | DESCRIPTION | LLAVA]".
Definition DEEPSEEK : string := "[PIPELINE | TAGGING | KEYWORD EXTRACTION | DEEPSEEK]".
Definition GROUNDING_DINO : string := "[PIPELINE | LOCATION | GDINO]".
Definition SAM2 : string := "[PIPELINE | SEGMENTATION | SAM2]".

(** The classes the orchestrator builds its collaborators from. It keeps at
    most one object of each, so the class names the receiver of a call. *)
Inductive cls : Type :=
| RamPlusTagger
| LlavaDescriptor
| DeepseekKeywordExtractor
| GroundingDinoLocator
| Sam2Segmenter.

(** The methods it calls on them. *)
Inductive method : Type :=
| load_image
| load_image_path
| load_description
| load_tags
| load_bbox_location
| run_.

(** The values that travel between the orchestrator and the collaborators. *)
Inductive value : Type :=
| VNone
| VStr (s : string)
| VDict (t : tags)
| VList (l : list candidate).

(** What the orchestrator does to the outside, in the order it does it:
    constructor calls with their keyword arguments, method calls with their
    arguments, and readings of [time.time()], each with its outcome. *)
Inductive event : Type :=
| Constructed (c : cls) (kwargs : list (string * bool)) (r : result unit)
| Called (c : cls) (m : method) (args : list value) (r : result value)
| TimeRead (t : float).

Definition history := list event.

(** The attributes [__init__] sets; a collaborator attribute exists only
    when its constructor was called. *)
Record PipelineTLS := {
  tagging_method : string;
  tagging_submethods : list string;
  location_method : string;
  segmentation_method : string;
  save_files : bool;
  tagger_ram_plus : option cls;
  descriptor_llava : option cls;
  extractor_deepseek : option cls;
  locator_gdino : option cls;
  segmenter_sam2 : option cls
}.

(** [self.<attribute>] for an attribute that may not have been set. *)
Definition attr {S A} (o : option A) : M S A :=
  match o with
  | Some a => ret a
  | None => throw AttributeError
  end.

Section Orchestrator.

(** The collaborators and the clock are outside the orchestrator: what a
    constructor or a method call does, and what the clock reads, may depend
    on everything that happened before. *)
Variable constructs : history -> cls -> list (string * bool) -> result unit.
Variable behaves : history -> cls -> method -> list value -> result value.
Variable clock : history -> float.

(** A constructor call with keyword arguments. *)
Definition new (c : cls) (kwargs : list (string * bool)) : M history cls :=
  fun h =>
    let r := constructs h c kwargs in
    (rbind r (fun _ => Ok c), h ++ [Constructed c kwargs r]).

(** A method call on a collaborator. *)
Definition call (c : cls) (m : method) (args : list value) : M history value :=
  fun h =>
    let r := behaves h c m args in
    (r, h ++ [Called c m args r]).

(** [time.time()] *)
Definition time_time : M history float :=
  fun h => let t := clock h in (Ok t, h ++ [TimeRead t]).

(** The tagging branch of [__init__]. *)
Definition init_tagging (method_ : string) (submethods : list string) (save : bool)
  : M history (option cls * option cls * option cls) :=
  if String.eqb method_ RAM_PLUS then
    o <- new RamPlusTagger [("save_file", save)] ;;
    ret (Some o, None, None)
  else if String.eqb method_ LVLM_LLM then
    s0 <- lift (index submethods 0) ;;
    d <- (if String.eqb s0 LLAVA then
            o <- new LlavaDescriptor [("save_file", save)] ;; ret (Some o)
          else ret None) ;;
    s1 <- lift (index submethods 1) ;;
    e <- (if String.eqb s1 DEEPSEEK then
            o <- new DeepseekKeywordExtractor [("save_file", save)] ;; ret (Some o)
          else ret None) ;;
    ret (None, d, e)
  else ret (None, None, None).

(** [__init__] *)
Definition init (method_ : string) (submethods : list string)
  (location : string) (segmentation : string) (save : bool)
  : M history PipelineTLS :=
  t <- init_tagging method_ submethods save ;;
  loc <- (if String.eqb location GROUNDING_DINO then
            o <- new GroundingDinoLocator
                   [("save_file_jpg", save); ("save_file_json", save)] ;;
            ret (Some o)
          else ret None) ;;
  seg <- (if String.eqb segmentation SAM2 then
            o <- new Sam2Segmenter [] ;; ret (Some o)
          else ret None) ;;
  ret {| tagging_method := method_;
         tagging_submethods := submethods;
         location_method := location;
         segmentation_method := segmentation;
         save_files := save;
         tagger_ram_plus := fst (fst t);
         descriptor_llava := snd (fst t);
         extractor_deepseek := snd t;
         locator_gdino := loc;
         segmenter_sam2 := seg |}.

(** The first [if] of the two-step branch of [tagging]: the description, or
    no binding of [description_str] at all. *)
Definition describe_step (self : PipelineTLS) (input_image_name : string)
  : M history (option value) :=
  s0 <- lift (index (tagging_submethods self) 0) ;;
  if String.eqb s0 LLAVA then
    o <- attr (descriptor_llava self) ;;
    call o load_image_path [VStr input_image_name] ;;
    description_str <- call o run_ [] ;;
    ret (Some description_str)
  else ret None.

(** [tagging] *)
Definition tagging (self : PipelineTLS) (input_image_name : string)
  : M history value :=
  if String.eqb (tagging_method self) RAM_PLUS then
    o <- attr (tagger_ram_plus self) ;;
    call o load_image [VStr input_image_name] ;;
    call o run_ []
  else if String.eqb (tagging_method self) LVLM_LLM then
    description_str <- describe_step self input_image_name ;;
    s1 <- lift (index (tagging_submethods self) 1) ;;
    if String.eqb s1 DEEPSEEK then
      o <- attr (extractor_deepseek self) ;;
      d <- (match description_str with
            | Some d => ret d
            | None => throw UnboundLocalError
            end) ;;
      call o load_description [d] ;;
      call o run_ []
    else ret (VDict [])
  else ret (VDict []).

(** [location] *)
Definition location (self : PipelineTLS) (input_image_name : string)
  (input_tags : value) : M history value :=
  if String.eqb (location_method self) GROUNDING_DINO then
    o <- attr (locator_gdino self) ;;
    call o load_image [VStr input_image_name] ;;
    call o load_tags [input_tags] ;;
    call o run_ []
  else ret (VDict []).

(** [segmentation] *)
Definition segmentation (self : PipelineTLS) (input_image_name : string)
  (input_bbox_location : value) : M history unit :=
  if String.eqb (segmentation_method self) SAM2 then
    o <- attr (segmenter_sam2 self) ;;
    call o load_image [VStr input_image_name] ;;
    call o load_bbox_location [input_bbox_location] ;;
    call o run_ [] ;;
    ret tt
  else ret tt.

(** [run] *)
Definition run (self : PipelineTLS) (input_image_name : string)
  : M history float :=
  start_time <- time_time ;;
  tagging_output <- tagging self input_image_name ;;
  location_output <- location self input_image_name tagging_output ;;
  segmentation self input_image_name location_output ;;
  end_time <- time_time ;;
  let total_time := PrimFloat.sub end_time start_time in
  ret total_time.

End Orchestrator.

End Pipeline.

(** * Properties *)

(** ** Strings, floats and the small monad *)

Module PyFacts.

Lemma append_cons (ch : ascii) (a b : string) :
  String ch a +:+ b = String ch (a +:+ b).
Proof. reflexivity. Qed.

Lemma append_assoc (a b c : string) : (a +:+ b) +:+ c = a +:+ (b +:+ c).
Proof.
  induction a as [|ch a IH]; [reflexivity|].
  rewrite !append_cons. now rewrite IH.
Qed.

Lemma append_nil_r (a : string) : a +:+ "" = a.
Proof.
  induction a as [|ch a IH]; [reflexivity|].
  rewrite append_cons. now rewrite IH.
Qed.

Lemma append_length (a b : string) :
  String.length (a +:+ b) = String.length a + String.length b.
Proof.
  induction a as [|ch a IH]; [reflexivity|].
  rewrite append_cons. simpl. now rewrite IH.
Qed.

(** The accumulating loop of [join] can be read from the front. *)
Lemma join_fold_shift (sep a : string) (items : list string) (x : string) :
  fold_left (fun acc y => acc +:+ sep +:+ y) items (a +:+ x)
  = a +:+ fold_left (fun acc y => acc +:+ sep +:+ y) items x.
Proof.
  revert x. induction items as [|y items IH]; intros x; cbn [fold_left];
    [reflexivity|].
  rewrite append_assoc. apply IH.
Qed.

Lemma join_cons (sep x y : string) (items : list string) :
  join sep (x :: y :: items) = x +:+ sep +:+ join sep (y :: items).
Proof.
  unfold join. cbn [fold_left].
  rewrite <- (append_assoc x sep y).
  rewrite (join_fold_shift sep (x +:+ sep) items y).
  apply append_assoc.
Qed.

(** [join] is the library's [String.concat]. *)
Lemma join_concat (sep : string) (items : list string) :
  join sep items = String.concat sep items.
Proof.
  induction items as [|x [|y items] IH]; try reflexivity.
  rewrite join_cons, IH. reflexivity.
Qed.

Ltac cmp_cases :=
  repeat match goal with
  | |- context [Z.compare ?a ?b] => destruct (Z.compare_spec a b)
  | H : context [Z.compare ?a ?b] |- _ => destruct (Z.compare_spec a b)
  | |- context [Pos.compare ?a ?b] => destruct (Pos.compare_spec a b)
  | H : context [Pos.compare ?a ?b] |- _ => destruct (Pos.compare_spec a b)
  end.

Ltac by_float_cases :=
  simpl; try congruence;
  change (PosDef.Pos.compare_cont Eq) with Pos.compare;
  intros; cmp_cases; simpl in *; subst; try congruence; try lia.

Lemma SFcompare_lt_trans (a b c : spec_float) :
  SFcompare a b = Some Lt -> SFcompare b c = Some Lt -> SFcompare a c = Some Lt.
Proof.
  destruct a as [[]|[]| |[] ma ea], b as [[]|[]| |[] mb eb],
           c as [[]|[]| |[] mc ec]; by_float_cases.
Qed.

Lemma SFcompare_eq_sym (a b : spec_float) :
  SFcompare a b = Some Eq -> SFcompare b a = Some Eq.
Proof.
  destruct a as [[]|[]| |[] ma ea], b as [[]|[]| |[] mb eb]; by_float_cases.
Qed.

(** [<] on floats is transitive, not-a-number included. *)
Lemma ltb_trans (x y z : float) :
  PrimFloat.ltb x y = true -> PrimFloat.ltb y z = true -> PrimFloat.ltb x z = true.
Proof.
  rewrite !ltb_spec. unfold SFltb.
  destruct (SFcompare (Prim2SF x) (Prim2SF y)) as [[]|] eqn:E1; try discriminate.
  destruct (SFcompare (Prim2SF y) (Prim2SF z)) as [[]|] eqn:E2; try discriminate.
  intros _ _. now rewrite (SFcompare_lt_trans _ _ _ E1 E2).
Qed.

Lemma ltb_irrefl (x : float) : PrimFloat.ltb x x = false.
Proof.
  destruct (PrimFloat.ltb x x) eqn:E; [|reflexivity].
  rewrite ltb_spec in E. unfold SFltb in E.
  destruct (Prim2SF x) as [[]|[]| |[] m e]; simpl in E; try discriminate;
    rewrite Z.compare_refl in E;
    change (PosDef.Pos.compare_cont Eq) with Pos.compare in E;
    rewrite Pos.compare_refl in E; discriminate.
Qed.

(** Two floats that compare equal are not ordered by [<]. *)
Lemma feq_not_gt (x y : float) : feq x y = true -> Py.gt x y = false.
Proof.
  unfold feq, Py.gt. rewrite FloatAxioms.eqb_spec, ltb_spec. unfold SFeqb, SFltb.
  destruct (SFcompare (Prim2SF x) (Prim2SF y)) as [[]|] eqn:E1; try discriminate.
  intros _. now rewrite (SFcompare_eq_sym _ _ E1).
Qed.

Lemma bind_ok {S A B} (c : M S A) (k : A -> M S B) (s s' : S) (a : A) :
  c s = (Ok a, s') -> bind c k s = k a s'.
Proof. intros H. unfold bind. now rewrite H. Qed.

Lemma bind_raise {S A B} (c : M S A) (k : A -> M S B) (s s' : S) (e : exn) :
  c s = (Raise e, s') -> bind c k s = (Raise e, s').
Proof. intros H. unfold bind. now rewrite H. Qed.

Lemma bind_ok_inv {S A B} (c : M S A) (k : A -> M S B) (s s' : S) (b : B) :
  bind c k s = (Ok b, s') ->
  exists a s1, c s = (Ok a, s1) /\ k a s1 = (Ok b, s').
Proof.
  unfold bind. destruct (c s) as [[a|e] s1]; intros H; [eauto | discriminate].
Qed.

End PyFacts.

Import PyFacts.

(** ** The location stage *)

Module GdinoFacts.

Import Gdino.

Definition candidate_scored (name : string) (s : float) : candidate :=
  {| label := name; score := s;
     box := {| x_min := 0; y_min := 0; x_max := 10; y_max := 10 |} |}.

(** C1. For every tag set the prompt is the tag values, in insertion order,
    joined by [". "], with a final ["."]: a value alone is followed by the
    final period, a value before others is followed by the delimiter and the
    prompt of the others. The tag set [{"0": "cup", "1": "table"}] gives
    ["cup. table."], and the empty tag set gives ["."]. *)
Theorem json_to_gdino_prompt_joins_values :
  (forall t : tags,
     json_to_gdino_prompt t = String.concat ". " (map snd t) +:+ ".")
  /\ (forall k v, json_to_gdino_prompt [(k, v)] = v +:+ ".")
  /\ (forall k v kv t,
        json_to_gdino_prompt ((k, v) :: kv :: t)
        = v +:+ ". " +:+ json_to_gdino_prompt (kv :: t))
  /\ json_to_gdino_prompt [("0", "cup"); ("1", "table")] = "cup. table."
  /\ json_to_gdino_prompt [] = ".".
Proof.
  repeat split.
  - intros t. unfold json_to_gdino_prompt, values. now rewrite join_concat.
  - intros k v [k' v'] t. unfold json_to_gdino_prompt, values.
    cbn [map snd]. rewrite join_cons. now rewrite !append_assoc.
Qed.

Lemma filter_confidence_cons (c : candidate) (rs : list candidate) (t : float) :
  filter_confidence (c :: rs) t
  = if Py.gt (score c) t then c :: filter_confidence rs t
    else filter_confidence rs t.
Proof. reflexivity. Qed.

#[warnings="-inexact-float"]
Definition three_scores : list candidate :=
  [candidate_scored "a" 0.29; candidate_scored "b" 0.30; candidate_scored "c" 0.31].

(** C2. The confidence filter keeps exactly the candidates whose score is
    strictly greater than the threshold, in their order: membership is
    membership with a greater score, the result is a sublist of the input,
    filtering distributes over concatenation, and a candidate whose score is
    the threshold itself, or compares equal to it, is dropped. The default threshold is 0.3, and of
    the scores 0.29, 0.30, 0.31 only the last passes it. *)
#[warnings="-inexact-float"]
Theorem filter_confidence_strictly_greater :
  (forall rs t c,
     In c (filter_confidence rs t)
     <-> In c rs /\ PrimFloat.ltb t (score c) = true)
  /\ (forall rs t, sublist (filter_confidence rs t) rs)
  /\ (forall rs1 rs2 t,
        filter_confidence (rs1 ++ rs2) t
        = filter_confidence rs1 t ++ filter_confidence rs2 t)
  /\ (forall c rs, filter_confidence (c :: rs) (score c)
                   = filter_confidence rs (score c))
  /\ (forall c rs t, feq (score c) t = true ->
        filter_confidence (c :: rs) t = filter_confidence rs t)
  /\ default_score_threshold = 0.3%float
  /\ filter_confidence three_scores 0.30%float = [candidate_scored "c" 0.31].
Proof.
  split; [|split; [|split; [|split; [|split; [|split]]]]].
  - intros rs t c. unfold filter_confidence, Py.gt. apply filter_In.
  - intros rs t. induction rs as [|c rs IH]; [constructor|].
    rewrite filter_confidence_cons. destruct (Py.gt (score c) t).
    + now apply sublist_skip.
    + now apply sublist_cons.
  - intros rs1 rs2 t. unfold filter_confidence. apply List.filter_app.
  - intros c rs. rewrite filter_confidence_cons. unfold Py.gt.
    now rewrite ltb_irrefl.
  - intros c rs t Heq. rewrite filter_confidence_cons.
    now rewrite (feq_not_gt _ _ Heq).
  - reflexivity.
  - vm_compute. reflexivity.
Qed.

(** A box of at least four coordinates gives an object, with the
    coordinates read in order. *)
Lemma make_obj_ok (l : string) (b : list float) (s : float) :
  4 <= length b ->
  exists b0 b1 b2 b3 rest,
    b = b0 :: b1 :: b2 :: b3 :: rest
    /\ make_obj l b s
       = Ok {| label := l; score := s;
               box := {| x_min := b0; y_min := b1; x_max := b2; y_max := b3 |} |}.
Proof.
  destruct b as [|b0 [|b1 [|b2 [|b3 rest]]]]; simpl; try lia.
  intros _. exists b0, b1, b2, b3, rest. split; reflexivity.
Qed.

Lemma collect_zip3 (labels : list string) :
  forall (boxes : list (list float)) (scores : list float),
    Forall (fun b => 4 <= length b) boxes ->
    exists cs,
      collect (zip3 labels boxes scores) = Ok cs
      /\ length cs = Nat.min (length labels) (Nat.min (length boxes) (length scores))
      /\ forall i c, cs !! i = Some c ->
           exists b rest,
             labels !! i = Some (label c)
             /\ scores !! i = Some (score c)
             /\ boxes !! i = Some b
             /\ b = x_min (box c) :: y_min (box c) :: x_max (box c)
                    :: y_max (box c) :: rest.
Proof.
  induction labels as [|l labels IH]; intros boxes scores Hb.
  - exists []. split; [reflexivity|]. split; [reflexivity|].
    intros i c Hi. destruct i; discriminate.
  - destruct boxes as [|b boxes].
    { exists []. split; [reflexivity|]. split; [reflexivity|].
      intros i c Hi. destruct i; discriminate. }
    destruct scores as [|s scores].
    { exists []. split; [reflexivity|]. split; [simpl; lia|].
      intros i c Hi. destruct i; discriminate. }
    inversion Hb as [|? ? Hb1 Hb2]; subst.
    destruct (make_obj_ok l b s Hb1) as (b0 & b1 & b2 & b3 & rest & -> & Hobj).
    destruct (IH boxes scores Hb2) as (cs & Hcs & Hlen & Hat).
    eexists. cbn [zip3 collect]. rewrite Hobj. cbn [rbind]. rewrite Hcs.
    cbn [rbind]. split; [reflexivity|]. split; [simpl; lia|].
    intros [|i] c Hi.
    + injection Hi as <-. exists (b0 :: b1 :: b2 :: b3 :: rest), rest.
      repeat split.
    + apply (Hat i c Hi).
Qed.

#[warnings="-inexact-float"]
Definition three_two_three : raw_results :=
  {| raw_scores := Some [0.9; 0.8; 0.7]%float;
     raw_boxes := Some [[1; 2; 3; 4]; [5; 6; 7; 8]]%float;
     raw_labels := Some ["cup"; "table"; "lamp"] |}.

(** C3. For raw output whose boxes have (at least) four coordinates each,
    normalization returns one candidate per position up to the length of the
    shortest of the three arrays, an absent array counting as empty: the
    candidate at a position has the label and the score at that position and,
    as [x_min], [y_min], [x_max], [y_max], the first four coordinates of the
    box at that position. Three labels, two boxes and three scores give two
    candidates. *)
Theorem gdino_results_to_json_zips (r : raw_results)
  (Hboxes : Forall (fun b => 4 <= length b) (get_or_empty (raw_boxes r))) :
  let labels := get_or_empty (raw_labels r) in
  let boxes := get_or_empty (raw_boxes r) in
  let scores := get_or_empty (raw_scores r) in
  exists cs,
    gdino_results_to_json r = Ok cs
    /\ length cs = Nat.min (length labels) (Nat.min (length boxes) (length scores))
    /\ (forall i c, cs !! i = Some c ->
          exists b rest,
            labels !! i = Some (label c)
            /\ scores !! i = Some (score c)
            /\ boxes !! i = Some b
            /\ b = x_min (box c) :: y_min (box c) :: x_max (box c)
                   :: y_max (box c) :: rest)
    /\ (raw_labels r = None \/ raw_boxes r = None \/ raw_scores r = None ->
        cs = []).
Proof.
  intros labels boxes scores.
  destruct (collect_zip3 labels boxes scores Hboxes) as (cs & Hcs & Hlen & Hat).
  exists cs. repeat split; try assumption.
  intros Habsent. apply length_zero_iff_nil. rewrite Hlen.
  subst labels boxes scores.
  destruct Habsent as [-> | [-> | ->]]; simpl; lia.
Qed.

Lemma gdino_results_to_json_zips_witness :
  exists cs, gdino_results_to_json three_two_three = Ok cs /\ length cs = 2.
Proof.
  assert (Hboxes : Forall (fun b => 4 <= length b)
                     (get_or_empty (raw_boxes three_two_three))).
  { simpl. repeat constructor. }
  destruct (gdino_results_to_json_zips three_two_three Hboxes)
    as (cs & Hcs & Hlen & _).
  exists cs. split; [exact Hcs | exact Hlen].
Defined.

(** *** Choosing the latest tag file *)

Section MaxBy.

Context {A : Type} (key : A -> result float).

(** The loop of [max]: the item returned is the starting one or a later one
    with a strictly greater key, and no later item has a key above its key. *)
Lemma max_from_greatest (items : list A) :
  forall (best : A) (bestval : float),
    (forall x, In x items -> exists v, key x = Ok v) ->
    exists m mv,
      max_from key best bestval items = Ok m
      /\ ((m = best /\ mv = bestval)
          \/ (In m items /\ key m = Ok mv /\ PrimFloat.ltb bestval mv = true))
      /\ (forall x v, In x items -> key x = Ok v -> PrimFloat.ltb mv v = false).
Proof.
  induction items as [|item rest IH]; intros best bestval Hkeys.
  - exists best, bestval. split; [reflexivity|]. split; [now left|].
    intros x v [].
  - destruct (Hkeys item (or_introl eq_refl)) as [val Hval].
    assert (Hrest : forall x, In x rest -> exists v, key x = Ok v)
      by (intros x Hx; apply Hkeys; now right).
    cbn [max_from]. rewrite Hval. cbn [rbind]. unfold Py.gt.
    destruct (PrimFloat.ltb bestval val) eqn:Hcmp.
    + destruct (IH item val Hrest) as (m & mv & Hm & Hwho & Htop).
      exists m, mv. split; [exact Hm|]. split.
      * right. destruct Hwho as [[-> ->] | (Hin & Hk & Hlt)].
        -- repeat split; [now left | exact Hval | exact Hcmp].
        -- repeat split; [now right | exact Hk |].
           exact (ltb_trans _ _ _ Hcmp Hlt).
      * intros x v [<- | Hx] Hv.
        -- rewrite Hval in Hv. injection Hv as <-.
           destruct Hwho as [[_ ->] | (_ & _ & Hlt)]; [apply ltb_irrefl|].
           destruct (PrimFloat.ltb mv val) eqn:Hback; [|reflexivity].
           pose proof (ltb_trans _ _ _ Hlt Hback) as Hbad.
           now rewrite ltb_irrefl in Hbad.
        -- exact (Htop x v Hx Hv).
    + destruct (IH best bestval Hrest) as (m & mv & Hm & Hwho & Htop).
      exists m, mv. split; [exact Hm|]. split.
      * destruct Hwho as [Hsame | (Hin & Hk & Hlt)]; [now left|].
        right. repeat split; [now right | exact Hk | exact Hlt].
      * intros x v [<- | Hx] Hv.
        -- rewrite Hval in Hv. injection Hv as <-.
           destruct Hwho as [[_ ->] | (_ & _ & Hlt)]; [exact Hcmp|].
           destruct (PrimFloat.ltb mv val) eqn:Hback; [|reflexivity].
           pose proof (ltb_trans _ _ _ Hlt Hback) as Hbad.
           now rewrite Hcmp in Hbad.
        -- exact (Htop x v Hx Hv).
Qed.

(** [max(items, key=key)] returns an item of the list no other item of
    which has a strictly greater key. *)
Lemma max_by_greatest (items : list A) :
  items <> [] ->
  (forall x, In x items -> exists v, key x = Ok v) ->
  exists m mv,
    max_by key items = Ok m /\ In m items /\ key m = Ok mv
    /\ (forall x v, In x items -> key x = Ok v -> PrimFloat.ltb mv v = false).
Proof.
  destruct items as [|first rest]; [congruence|]. intros _ Hkeys.
  destruct (Hkeys first (or_introl eq_refl)) as [v0 Hv0].
  assert (Hrest : forall x, In x rest -> exists v, key x = Ok v)
    by (intros x Hx; apply Hkeys; now right).
  destruct (max_from_greatest rest first v0 Hrest) as (m & mv & Hm & Hwho & Htop).
  exists m, mv. unfold max_by. rewrite Hv0. cbn [rbind].
  split; [exact Hm|].
  destruct Hwho as [[-> ->] | (Hin & Hk & Hlt)].
  - split; [now left|]. split; [exact Hv0|].
    intros x v [<- | Hx] Hv; [|exact (Htop x v Hx Hv)].
    rewrite Hv0 in Hv. injection Hv as <-. apply ltb_irrefl.
  - split; [now right|]. split; [exact Hk|].
    intros x v [<- | Hx] Hv; [|exact (Htop x v Hx Hv)].
    rewrite Hv0 in Hv. injection Hv as <-.
    destruct (PrimFloat.ltb mv v0) eqn:Hback; [|reflexivity].
    pose proof (ltb_trans _ _ _ Hlt Hback) as Hbad.
    now rewrite ltb_irrefl in Hbad.
Qed.

End MaxBy.

Lemma getmtime_is_Some (w : world) (p : string) :
  is_Some (fs w !! p) -> exists t, getmtime w p = Ok t.
Proof.
  intros [n Hn]. unfold getmtime. rewrite Hn. destruct n; eauto.
Qed.

(** A directory of tag files written at three different times, listed in
    an order that is not the order of the times, next to a file that is
    not a tag file. *)
Definition tags_dir : string := "/app/tagging/output_tags".

Definition tags_world : world :=
  {| fs := list_to_map
       [(tags_dir, Dir 400 ["first.json"; "third.json"; "notes.txt"; "second.json"]);
        ("/app/tagging/output_tags/first.json", File 100 (Json (JTags [("0", "cup")])));
        ("/app/tagging/output_tags/third.json", File 300 (Json (JTags [("0", "lamp")])));
        ("/app/tagging/output_tags/notes.txt", File 500 (Text "not tags"));
        ("/app/tagging/output_tags/second.json", File 200 (Json (JTags [("0", "desk")])))];
     localtime := {| tm_year := 2025; tm_mon := 3; tm_mday := 1;
                     tm_hour := 10; tm_min := 0; tm_sec := 0 |};
     now := 1000 |}.

Definition empty_tags_world : world :=
  {| fs := list_to_map [(tags_dir, Dir 400 ["notes.txt"])];
     localtime := localtime tags_world;
     now := 1000 |}.

(** C9. Given a directory whose [.json] entries can be stat-ed,
    [read_input_tags] raises [FileNotFoundError] when the listing has no name
    ending in [.json]; otherwise it picks a [.json] entry whose modification
    time no other [.json] entry exceeds, and returns what loading that file
    gives together with its file name. *)
Theorem read_input_tags_latest_wins (dir : string) (w : world)
  (m : float) (entries : list string)
  (Hdir : fs w !! dir = Some (Dir m entries))
  (Hstat : forall f, In f entries -> endswith f ".json" = true ->
           is_Some (fs w !! path_join dir [f])) :
  let names := List.filter (fun f => endswith f ".json") entries in
  (names = [] -> read_input_tags dir w = Raise FileNotFoundError)
  /\ (names <> [] ->
      exists f t,
        In f names
        /\ getmtime w (path_join dir [f]) = Ok t
        /\ (forall g tg, In g names -> getmtime w (path_join dir [g]) = Ok tg ->
            PrimFloat.ltb t tg = false)
        /\ read_input_tags dir w
           = rbind (load_json (path_join dir [f]) w)
               (fun content => Ok (content, basename (path_join dir [f])))).
Proof.
  intros names. unfold read_input_tags, listdir. rewrite Hdir. cbn [rbind].
  unfold json_files. fold names. split.
  - intros ->. reflexivity.
  - intros Hne.
    set (files := map (fun f => path_join dir [f]) names).
    assert (Hfiles : files <> []).
    { subst files. destruct names; [congruence | discriminate]. }
    assert (Hkeys : forall x, In x files -> exists v, getmtime w x = Ok v).
    { intros x Hx. subst files. apply in_map_iff in Hx as (f & <- & Hf).
      subst names. apply filter_In in Hf as [Hf1 Hf2].
      apply getmtime_is_Some, Hstat; assumption. }
    destruct (max_by_greatest (getmtime w) files Hfiles Hkeys)
      as (best & t & Hbest & Hin & Ht & Htop).
    subst files. apply in_map_iff in Hin as (f & <- & Hf).
    exists f, t. split; [exact Hf|]. split; [exact Ht|]. split.
    + intros g tg Hg Hgt. apply (Htop (path_join dir [g]) tg); [|exact Hgt].
      apply in_map_iff. now exists g.
    + destruct (map _ names) eqn:Hmap; [congruence|].
      rewrite Hbest. reflexivity.
Qed.

Lemma read_input_tags_latest_wins_witness :
  read_input_tags tags_dir tags_world = Ok (JTags [("0", "lamp")], "third.json")
  /\ read_input_tags tags_dir empty_tags_world = Raise FileNotFoundError
  /\ exists f t,
       In f ["first.json"; "third.json"; "second.json"]
       /\ getmtime tags_world (path_join tags_dir [f]) = Ok t
       /\ forall g tg, In g ["first.json"; "third.json"; "second.json"] ->
            getmtime tags_world (path_join tags_dir [g]) = Ok tg ->
            PrimFloat.ltb t tg = false.
Proof.
  split; [vm_compute; reflexivity|]. split; [vm_compute; reflexivity|].
  assert (Hdir : fs tags_world !! tags_dir
                 = Some (Dir 400 ["first.json"; "third.json"; "notes.txt"; "second.json"]))
    by (vm_compute; reflexivity).
  assert (Hstat : forall f,
             In f ["first.json"; "third.json"; "notes.txt"; "second.json"] ->
             endswith f ".json" = true ->
             is_Some (fs tags_world !! path_join tags_dir [f])).
  { intros f [<- | [<- | [<- | [<- | []]]]] _; vm_compute; eauto. }
  destruct (read_input_tags_latest_wins tags_dir tags_world _ _ Hdir Hstat)
    as [_ Hsome].
  destruct Hsome as (f & t & Hf & Ht & Htop & _); [vm_compute; congruence|].
  exists f, t. split; [exact Hf|]. split; [exact Ht | exact Htop].
Defined.

End GdinoFacts.

(** ** Where the location stage writes *)

Module GdinoFiles.

Import Gdino.

Lemma join2_relative_inj (path a b : string) :
  startswith a "/" = false -> startswith b "/" = false ->
  join2 path a = join2 path b -> a = b.
Proof.
  unfold join2. intros -> ->.
  destruct (String.eqb path "" || endswith path "/"); intros H.
  - exact (String.app_inj path _ _ H).
  - apply (String.app_inj "/"). exact (String.app_inj path _ _ H).
Qed.

(** The two output names of one timestamp differ. *)
Lemma json_jpg_paths_differ (out ts : string) :
  path_join out ["location_gdino_" +:+ ts +:+ ".json"]
  <> path_join out ["location_gdino_" +:+ ts +:+ ".jpg"].
Proof.
  unfold path_join. cbn [fold_left]. intros H.
  apply join2_relative_inj in H; [|reflexivity|reflexivity].
  apply (String.app_inj "location_gdino_") in H.
  apply (String.app_inj ts) in H. discriminate.
Qed.

(** What [__init__] leaves in the output attributes: names made from the
    clock as it reads during construction. *)
Lemma init_output_files (dir name : string) (thr : float) (sj sp : bool)
  (w0 w1 : world) (self : GroundingDinoLocator) :
  init dir name thr sj sp w0 = (Ok self, w1) ->
  let out := path_join dir ["output_location"] in
  let ts := strftime (localtime w0) in
  script_dir self = dir
  /\ score_threshold self = thr
  /\ save_file_json self = sj
  /\ save_file_jpg self = sp
  /\ output_file_json self
     = (if sj then Some (path_join out ["location_gdino_" +:+ ts +:+ ".json"])
        else None)
  /\ output_file_jpg self
     = (if sp then Some (path_join out ["location_gdino_" +:+ ts +:+ ".jpg"])
        else None).
Proof.
  unfold init, bind, reads, ret, throw.
  destruct (isfile _ w0); [|discriminate].
  destruct (image_open _ w0) as [img|]; [|discriminate].
  destruct (read_input_tags _ w0) as [rd|]; [|discriminate].
  destruct (sj || sp) eqn:Hany.
  - unfold makedirs.
    destruct (fs w0 !! _) as [[]|]; try discriminate;
      cbn [localtime set_fs]; intros [= <- <-]; cbn;
      destruct sj, sp; repeat split.
  - intros [= <- <-]. cbn. apply orb_false_elim in Hany as [-> ->].
    repeat split.
Qed.

Lemma write_file_ok (p : string) (c : content) (w : world) :
  (forall m e, fs w !! p <> Some (Dir m e)) ->
  write_file p c w = (Ok tt, set_fs (insert p (File (now w) c)) w).
Proof.
  intros Hnd. unfold write_file.
  destruct (fs w !! p) as [[]|] eqn:E; try reflexivity.
  exfalso. eapply Hnd. reflexivity.
Qed.

(** A source tree with an input image and one tag file, at ten o'clock. *)
Definition desk_world : world :=
  {| fs := list_to_map
       [("/app/location/../input_images/desk.jpg", File 50 (Picture (Photo "desk")));
        ("/app/location/../tagging/output_tags", Dir 90 ["tags.json"]);
        ("/app/location/../tagging/output_tags/tags.json",
         File 90 (Json (JTags [("0", "cup"); ("1", "table")])))];
     localtime := {| tm_year := 2025; tm_mon := 3; tm_mday := 1;
                     tm_hour := 10; tm_min := 0; tm_sec := 0 |};
     now := 1000 |}.

(** The same files seen seven seconds later. *)
Definition seven_seconds_later (w : world) : world :=
  {| fs := fs w;
     localtime := {| tm_year := 2025; tm_mon := 3; tm_mday := 1;
                     tm_hour := 10; tm_min := 0; tm_sec := 7 |};
     now := 1007 |}.

#[warnings="-inexact-float"]
Definition desk_detect (img : image) (text : string) : result raw_results :=
  Ok {| raw_scores := Some [0.9; 0.2]%float;
        raw_boxes := Some [[1; 2; 3; 4]; [5; 6; 7; 8]]%float;
        raw_labels := Some ["cup"; "table"] |}.

Definition desk_tags : tags := [("0", "cup"); ("1", "table")].

(** The reading of C6 as it is written: after a run, the JSON result is
    found under the name made from the clock as it reads at the write. *)
Definition written_under_write_time
  (detect : image -> string -> result raw_results)
  (self : GroundingDinoLocator) (tags_in : tags) (w : world) : Prop :=
  let w' := snd (locate_objects detect self tags_in w) in
  let out := path_join (script_dir self) ["output_location"] in
  is_Some (fs w' !! path_join out
             ["location_gdino_" +:+ strftime (localtime w) +:+ ".json"]).

(** What [__init__] returns in [desk_world]: the locator, and the world
    with the output directory made. *)
Definition desk_locator : GroundingDinoLocator :=
  {| script_dir := "/app/location";
     score_threshold := default_score_threshold;
     save_file_json := true;
     save_file_jpg := true;
     input_image := Photo "desk";
     input_tags := JTags [("0", "cup"); ("1", "table")];
     output_file_json :=
       Some "/app/location/output_location/location_gdino_2025-03-01_10-00-00.json";
     output_file_jpg :=
       Some "/app/location/output_location/location_gdino_2025-03-01_10-00-00.jpg" |}.

Definition desk_world_built : world :=
  set_fs (insert "/app/location/output_location" (Dir 1000 [])) desk_world.

Lemma desk_init :
  init "/app/location" "desk.jpg" default_score_threshold true true desk_world
  = (Ok desk_locator, desk_world_built).
Proof. vm_compute. reflexivity. Qed.

(** C6, as stated, fails: a locator built at 10:00:00 and run at 10:00:07
    returns its detections and leaves no file named after 10:00:07. *)
#[warnings="-inexact-float"]
Lemma location_name_not_from_write_time :
  init "/app/location" "desk.jpg" default_score_threshold true true desk_world
  = (Ok desk_locator, desk_world_built)
  /\ fst (locate_objects desk_detect desk_locator desk_tags
            (seven_seconds_later desk_world_built))
     = Ok [{| label := "cup"; score := 0.9;
              box := {| x_min := 1; y_min := 2; x_max := 3; y_max := 4 |} |}]
  /\ ~ written_under_write_time desk_detect desk_locator desk_tags
         (seven_seconds_later desk_world_built).
Proof.
  split; [exact desk_init|]. split.
  - vm_compute. reflexivity.
  - unfold written_under_write_time. intros [n Hn].
    vm_compute in Hn. discriminate.
Qed.

(** C6, amended. A locator built with both save flags names its two output
    files after the clock as it read during construction. Whenever it then
    runs, whatever the clock reads and whatever files already lie at the two
    names, the run succeeds (given the detector answers and the boxes
    normalize), and afterwards the two names hold this run's filtered result
    and its picture, every other path being as before: nothing checks that a
    name is free, so a later write replaces an earlier one. *)
Theorem locate_objects_writes_construction_name
  (detect : image -> string -> result raw_results)
  (dir name : string) (thr : float) (w0 w1 w : world)
  (self : GroundingDinoLocator) (tags_in : tags)
  (raw : raw_results) (cs : list candidate)
  (Hinit : init dir name thr true true w0 = (Ok self, w1))
  (Hdetect : detect (input_image self) (json_to_gdino_prompt tags_in) = Ok raw)
  (Hnorm : gdino_results_to_json raw = Ok cs) :
  let out := path_join dir ["output_location"] in
  let ts := strftime (localtime w0) in
  let pj := path_join out ["location_gdino_" +:+ ts +:+ ".json"] in
  let pi := path_join out ["location_gdino_" +:+ ts +:+ ".jpg"] in
  let kept := filter_confidence cs thr in
  (forall m e, fs w !! pj <> Some (Dir m e)) ->
  (forall m e, fs w !! pi <> Some (Dir m e)) ->
  exists w',
    locate_objects detect self tags_in w = (Ok kept, w')
    /\ fs w' !! pj = Some (File (now w) (Json (JDetections kept)))
    /\ fs w' !! pi = Some (File (now w) (Picture (Boxes (input_image self) kept)))
    /\ (forall p, p <> pj -> p <> pi -> fs w' !! p = fs w !! p)
    /\ localtime w' = localtime w.
Proof.
  intros out ts pj pi kept Hj Hi.
  destruct (init_output_files _ _ _ _ _ _ _ _ Hinit)
    as (_ & Hthr & Hsj & Hsp & Hoj & Hop).
  fold out ts pj in Hoj. fold out ts pi in Hop.
  assert (Hne : pj <> pi) by apply json_jpg_paths_differ.
  unfold locate_objects, bind, lift, when, attr, ret.
  rewrite Hdetect, Hnorm, Hsj, Hsp, Hoj, Hop, Hthr. fold kept.
  rewrite (write_file_ok pj _ w Hj).
  rewrite write_file_ok.
  2:{ intros m e. cbn [fs set_fs]. rewrite lookup_insert_ne by exact Hne. apply Hi. }
  eexists. split; [reflexivity|]. cbn [fs set_fs localtime now].
  split; [|split; [|split]].
  - rewrite lookup_insert_ne by congruence. apply lookup_insert_eq.
  - unfold draw_bounding_boxes. apply lookup_insert_eq.
  - intros p Hp1 Hp2. rewrite !lookup_insert_ne by congruence. reflexivity.
  - reflexivity.
Qed.

#[warnings="-inexact-float"]
Lemma locate_objects_writes_construction_name_witness :
  exists w',
    locate_objects desk_detect desk_locator desk_tags
      (seven_seconds_later desk_world_built)
    = (Ok (filter_confidence
             [{| label := "cup"; score := 0.9;
                 box := {| x_min := 1; y_min := 2; x_max := 3; y_max := 4 |} |};
              {| label := "table"; score := 0.2;
                 box := {| x_min := 5; y_min := 6; x_max := 7; y_max := 8 |} |}]
             default_score_threshold), w')
    /\ is_Some (fs w' !! "/app/location/output_location/location_gdino_2025-03-01_10-00-00.json")
    /\ is_Some (fs w' !! "/app/location/output_location/location_gdino_2025-03-01_10-00-00.jpg").
Proof.
  destruct (locate_objects_writes_construction_name desk_detect
              "/app/location" "desk.jpg" default_score_threshold
              desk_world desk_world_built (seven_seconds_later desk_world_built)
              desk_locator desk_tags _ _ desk_init eq_refl eq_refl)
    as (w' & Hrun & Hj & Hp & _).
  - intros m e. vm_compute. discriminate.
  - intros m e. vm_compute. discriminate.
  - exists w'. split; [exact Hrun|].
    split; [eexists; exact Hj | eexists; exact Hp].
Defined.

End GdinoFiles.

(** ** The captioning collaborator *)

Module LlavaFacts.

Import Llava.

Lemma truthy_nonempty (s : string) : truthy s = true <-> s <> "".
Proof. destruct s; simpl; split; congruence. Qed.

Lemma lstrip_empty : lstrip "" = "".
Proof. reflexivity. Qed.

(** A string whose stripped form is non-empty is non-empty itself. *)
Lemma strip_truthy_nonempty (s : string) : truthy (strip s) = true -> s <> "".
Proof. intros H ->. discriminate H. Qed.

Section Loop.

Variable chat : string -> string -> list string -> M world string.

(** The retry loop told as the rounds it goes through, from the world in
    which a round starts to the outcome and the world in which the loop
    ends. A round first compares the elapsed time with the timeout, then
    asks the model; a reply that is blank once stripped starts the next
    round in the very world the reply came back in. *)
Inductive rounds (self : LlavaDescriptor) (start_time : float)
  : world -> result string -> world -> Prop :=
| round_timeout (w : world) :
    PrimFloat.ltb (PrimFloat.sub (now w) start_time) (timeout self) = false ->
    rounds self start_time w (Raise TimeoutError) w
| round_no_image (w : world) :
    PrimFloat.ltb (PrimFloat.sub (now w) start_time) (timeout self) = true ->
    input_image_path self = None ->
    rounds self start_time w (Raise AttributeError) w
| round_error (w w' : world) (img : string) (e : exn) :
    PrimFloat.ltb (PrimFloat.sub (now w) start_time) (timeout self) = true ->
    input_image_path self = Some img ->
    chat (llava_model_name self) (prompt self) [img] w = (Raise e, w') ->
    rounds self start_time w (Raise e) w'
| round_answer (w w' : world) (img description : string) :
    PrimFloat.ltb (PrimFloat.sub (now w) start_time) (timeout self) = true ->
    input_image_path self = Some img ->
    chat (llava_model_name self) (prompt self) [img] w = (Ok description, w') ->
    truthy (strip description) = true ->
    rounds self start_time w (Ok description) w'
| round_blank (w w' w'' : world) (img description : string) (r : result string) :
    PrimFloat.ltb (PrimFloat.sub (now w) start_time) (timeout self) = true ->
    input_image_path self = Some img ->
    chat (llava_model_name self) (prompt self) [img] w = (Ok description, w') ->
    truthy (strip description) = false ->
    rounds self start_time w' r w'' ->
    rounds self start_time w r w''.

Lemma describe_rounds (self : LlavaDescriptor) (start_time : float) (fuel : nat) :
  forall w r w',
    describe chat fuel self start_time w = Some (r, w') ->
    rounds self start_time w r w'.
Proof.
  induction fuel as [|k IH]; intros w r w'; cbn [describe];
    (destruct (PrimFloat.ltb _ _) eqn:Ht;
       [|intros [= <- <-]; now apply round_timeout]);
    (destruct (input_image_path self) as [img|] eqn:Hi;
       [|intros [= <- <-]; now apply round_no_image]);
    (destruct (chat _ _ _ w) as [[d|e] w1] eqn:Hc;
       [|intros [= <- <-]; now apply round_error with img]);
    (destruct (truthy (strip d)) eqn:Hs;
       [intros [= <- <-]; now apply round_answer with img|]).
  - discriminate.
  - intros H. apply round_blank with w1 img d; auto.
Qed.

Lemma rounds_describe (self : LlavaDescriptor) (start_time : float)
  (w : world) (r : result string) (w' : world) :
  rounds self start_time w r w' ->
  exists fuel, describe chat fuel self start_time w = Some (r, w').
Proof.
  induction 1 as [w Ht | w Ht Hi | w w' img e Ht Hi Hc
                  | w w' img d Ht Hi Hc Hs
                  | w w' w'' img d r Ht Hi Hc Hs _ [k IH]].
  - exists 0. cbn [describe]. now rewrite Ht.
  - exists 0. cbn [describe]. now rewrite Ht, Hi.
  - exists 0. cbn [describe]. now rewrite Ht, Hi, Hc.
  - exists 0. cbn [describe]. now rewrite Ht, Hi, Hc, Hs.
  - exists (S k). cbn [describe]. now rewrite Ht, Hi, Hc, Hs.
Qed.

Lemma rounds_answer_nonblank (self : LlavaDescriptor) (start_time : float)
  (w : world) (r : result string) (w' : world) :
  rounds self start_time w r w' ->
  forall d, r = Ok d -> truthy (strip d) = true.
Proof.
  induction 1; intros d0 Hd; try discriminate; auto.
  now injection Hd as <-.
Qed.

(** A run that returns a description returns one the loop produced. *)
Lemma run_ok_describe (fuel : nat) (self : LlavaDescriptor)
  (w : world) (d : string) (w' : world) :
  run chat fuel self w = Some (Ok d, w') ->
  exists w1 w2, describe chat fuel self (now w1) w1 = Some (Ok d, w2).
Proof.
  unfold run.
  destruct (prepare_output fuel self w) as [[[ts|e] w1]|]; try discriminate.
  destruct (describe chat fuel self (now w1) w1) as [[[d'|e] w2]|] eqn:Hd;
    try discriminate.
  destruct (save_description self ts d' w2) as [[u|e] w3]; try discriminate.
  intros [= <- <-]. eauto.
Qed.

End Loop.

(** One second passes. *)
Definition tick (w : world) : world :=
  {| fs := fs w; localtime := localtime w; now := PrimFloat.add (now w) 1 |}.

(** A model that answers with a single space during the first second and
    with a description afterwards; each call takes a second. *)
Definition blank_then_desk (model prompt_text : string) (images : list string)
  : M world string :=
  fun w =>
    (Ok (if PrimFloat.ltb (now w) 1001 then " " else "a desk"), tick w).

(** A model that answers at once, always the same. *)
Definition always_desk (model prompt_text : string) (images : list string)
  : M world string :=
  fun w => (Ok "a desk", w).

Definition desk_descriptor (save : bool) : LlavaDescriptor :=
  {| script_dir := "/app/d";
     llava_model_name := "llava:34b";
     prompt := "Describe the image.";
     iters := 1;
     save_file := save;
     timeout := 1200;
     output_descriptions_dir := if save then Some "/app/d/output_descriptions" else None;
     input_image_path := Some "/app/d/../../../input_images/desk.jpg" |}.

Definition at_ten (files : list (string * node)) : world :=
  {| fs := list_to_map files;
     localtime := {| tm_year := 2025; tm_mon := 3; tm_mday := 1;
                     tm_hour := 10; tm_min := 0; tm_sec := 0 |};
     now := 1000 |}.

(** The reading of C8 as it is written: a first reply that is not the empty
    string, received before the timeout, is what the run returns. *)
Definition returns_first_nonempty_reply
  (chat : string -> string -> list string -> M world string)
  (self : LlavaDescriptor) (w : world) : Prop :=
  forall img d w1,
    save_file self = false ->
    input_image_path self = Some img ->
    PrimFloat.ltb (PrimFloat.sub (now w) (now w)) (timeout self) = true ->
    chat (llava_model_name self) (prompt self) [img] w = (Ok d, w1) ->
    d <> "" ->
    exists fuel, run chat fuel self w = Some (Ok d, w1).

(** C8, as stated, fails: a first reply of one space is not empty, yet the
    model is asked again and the run returns the second reply. *)
Lemma whitespace_reply_is_retried :
  run blank_then_desk 1 (desk_descriptor false) (at_ten [])
  = Some (Ok "a desk", tick (tick (at_ten [])))
  /\ ~ returns_first_nonempty_reply blank_then_desk (desk_descriptor false) (at_ten []).
Proof.
  split; [vm_compute; reflexivity|].
  intros H.
  destruct (H "/app/d/../../../input_images/desk.jpg" " " (tick (at_ten [])))
    as [fuel Hrun]; try reflexivity; try discriminate.
  destruct fuel as [|[|k]]; vm_compute in Hrun; discriminate.
Qed.

(** C8, amended. The loop of [run] is exactly the rounds of [rounds]: before
    each attempt the elapsed time is compared with the timeout and, when it
    is not below it, [TimeoutError] is raised and nothing is returned;
    otherwise the model is asked, and its reply is returned if it is
    non-empty once stripped of surrounding whitespace, and else the next
    attempt starts at once in the world the reply came back in. Every
    description a run returns is non-empty, also after stripping, and a
    timeout of the loop is the outcome of the run, with no world change
    after it. *)
Theorem run_retries_until_nonblank
  (chat : string -> string -> list string -> M world string)
  (self : LlavaDescriptor) :
  (forall start_time w r w',
     (exists fuel, describe chat fuel self start_time w = Some (r, w'))
     <-> rounds chat self start_time w r w')
  /\ (forall fuel w d w',
        run chat fuel self w = Some (Ok d, w') ->
        truthy (strip d) = true /\ d <> "")
  /\ (forall fuel w ts w1 w2,
        prepare_output fuel self w = Some (Ok ts, w1) ->
        describe chat fuel self (now w1) w1 = Some (Raise TimeoutError, w2) ->
        run chat fuel self w = Some (Raise TimeoutError, w2)).
Proof.
  split; [|split].
  - intros start_time w r w'. split.
    + intros [fuel H]. now apply describe_rounds with fuel.
    + apply rounds_describe.
  - intros fuel w d w' Hrun.
    destruct (run_ok_describe chat fuel self w d w' Hrun) as (w1 & w2 & Hd).
    apply describe_rounds in Hd.
    pose proof (rounds_answer_nonblank chat self _ _ _ _ Hd d eq_refl) as Hs.
    split; [exact Hs | now apply strip_truthy_nonempty].
  - intros fuel w ts w1 w2 Hp Hd. unfold run. now rewrite Hp, Hd.
Qed.

(** The output directory as a run in the same second as an earlier one
    finds it: the earlier run's directory and its description are there. *)
Definition second_run_world : world :=
  at_ten
    [("/app/d/output_descriptions", Dir 999 []);
     ("/app/d/output_descriptions/description_llava_2025-03-01_10-00-00", Dir 1000 []);
     ("/app/d/output_descriptions/description_llava_2025-03-01_10-00-00.txt",
      File 1000 (Text "a chair"))].

(** The world that run leaves. *)
Definition second_run_result : world :=
  match run always_desk 2 (desk_descriptor true) second_run_world with
  | Some (_, w) => w
  | None => second_run_world
  end.

Lemma second_run :
  run always_desk 2 (desk_descriptor true) second_run_world
  = Some (Ok "a desk", second_run_result).
Proof. vm_compute. reflexivity. Qed.

(** C7 at that input: the loop finds the free name with suffix [_1] and an
    empty directory is made there, while the description goes to the text
    file of the bare timestamp, whose earlier content is lost. *)
Lemma description_written_beside_unique_dir :
  run always_desk 2 (desk_descriptor true) second_run_world
  = Some (Ok "a desk", second_run_result)
  /\ fs second_run_world
       !! "/app/d/output_descriptions/description_llava_2025-03-01_10-00-00.txt"
     = Some (File 1000 (Text "a chair"))
  /\ fs second_run_result
       !! "/app/d/output_descriptions/description_llava_2025-03-01_10-00-00.txt"
     = Some (File 1000 (Text "a desk"))
  /\ fs second_run_result
       !! "/app/d/output_descriptions/description_llava_2025-03-01_10-00-00_1"
     = Some (Dir 1000 [])
  /\ fs second_run_result
       !! "/app/d/output_descriptions/description_llava_2025-03-01_10-00-00_1.txt"
     = None.
Proof.
  split; [exact second_run|].
  repeat split; vm_compute; reflexivity.
Qed.

(** *** The loop that looks for a free directory name *)

Lemma to_uint_nonnil (n : nat) : Nat.to_uint n <> Decimal.Nil.
Proof.
  rewrite <- (Unsigned.of_to n) at 1. rewrite Unsigned.to_of.
  apply unorm_nonnil.
Qed.

Lemma str_of_nat_inj (n m : nat) : str_of_nat n = str_of_nat m -> n = m.
Proof.
  unfold str_of_nat. intros H.
  apply Unsigned.to_uint_inj.
  assert (Some (Nat.to_uint n) = Some (Nat.to_uint m)) as [= E]; [|exact E].
  rewrite <- (NilZero.usu _ (to_uint_nonnil n)), <- (NilZero.usu _ (to_uint_nonnil m)).
  now rewrite H.
Qed.

(** The name the loop tries after [n] collisions. *)
Definition candidate (base : string) (n : nat) : string :=
  match n with
  | O => base
  | S _ => base +:+ "_" +:+ str_of_nat n
  end.

Lemma candidate_inj (base : string) (n m : nat) :
  candidate base n = candidate base m -> n = m.
Proof.
  destruct n as [|n], m as [|m]; cbn [candidate]; intros H.
  - reflexivity.
  - rewrite <- (append_nil_r base) in H at 1.
    apply (String.app_inj base) in H. discriminate.
  - rewrite <- (append_nil_r base) in H at 2.
    apply (String.app_inj base) in H. discriminate.
  - apply (String.app_inj base) in H. apply (String.app_inj "_") in H.
    now apply str_of_nat_inj.
Qed.

Lemma unique_dir_step (fuel : nat) (base : string) (n : nat) (w : world) :
  unique_dir fuel base (candidate base n) (S n) w
  = if exists_ (candidate base n) w then
      match fuel with
      | O => None
      | S k => unique_dir k base (candidate base (S n)) (S (S n)) w
      end
    else Some (candidate base n).
Proof. destruct fuel; reflexivity. Qed.

(** Running out of fuel means every name tried was taken. *)
Lemma unique_dir_none (fuel : nat) (base : string) (w : world) :
  forall n,
    unique_dir fuel base (candidate base n) (S n) w = None ->
    forall j, j <= fuel -> exists_ (candidate base (n + j)) w = true.
Proof.
  induction fuel as [|k IH]; intros n H j Hj; rewrite unique_dir_step in H;
    destruct (exists_ (candidate base n) w) eqn:E; try discriminate.
  - assert (j = 0) as -> by lia. now rewrite Nat.add_0_r.
  - destruct j as [|j]; [now rewrite Nat.add_0_r|].
    replace (n + S j) with (S n + j) by lia. apply (IH (S n) H). lia.
Qed.

(** The name returned is the first one in the sequence that is free. *)
Lemma unique_dir_some (fuel : nat) (base : string) (w : world) :
  forall n d,
    unique_dir fuel base (candidate base n) (S n) w = Some d ->
    exists k, d = candidate base (n + k) /\ exists_ d w = false
              /\ forall j, j < k -> exists_ (candidate base (n + j)) w = true.
Proof.
  induction fuel as [|f IH]; intros n d H; rewrite unique_dir_step in H;
    destruct (exists_ (candidate base n) w) eqn:E; try discriminate.
  - injection H as <-. exists 0. rewrite Nat.add_0_r. split; [reflexivity|].
    split; [exact E|]. intros j Hj. lia.
  - destruct (IH (S n) d H) as (k & -> & Hfree & Hbusy).
    exists (S k). replace (n + S k) with (S n + k) by lia.
    split; [reflexivity|]. split; [exact Hfree|].
    intros [|j] Hj; [now rewrite Nat.add_0_r|].
    replace (n + S j) with (S n + j) by lia. apply Hbusy. lia.
  - injection H as <-. exists 0. rewrite Nat.add_0_r. split; [reflexivity|].
    split; [exact E|]. intros j Hj. lia.
Qed.

Lemma exists_dom (p : string) (w : world) :
  exists_ p w = true -> p ∈ dom (fs w).
Proof.
  unfold exists_. destruct (fs w !! p) eqn:E; [|discriminate].
  intros _. apply elem_of_dom. eauto.
Qed.

(** More names than the file system has paths cannot all be taken. *)
Lemma candidates_run_out (base : string) (w : world) (fuel : nat) :
  size (fs w) <= fuel ->
  ~ (forall j, j <= fuel -> exists_ (candidate base j) w = true).
Proof.
  intros Hsize Hall.
  set (names := candidate base <$> seq 0 (S fuel)).
  assert (Hnodup : NoDup names).
  { apply NoDup_fmap_2; [|apply NoDup_seq].
    intros a b. apply candidate_inj. }
  assert (Hsub : (list_to_set names : gset string) ⊆ dom (fs w)).
  { intros p Hp. apply elem_of_list_to_set in Hp.
    apply list_elem_of_fmap in Hp as (j & -> & Hj).
    apply elem_of_seq in Hj. apply exists_dom, Hall. lia. }
  apply subseteq_size in Hsub.
  rewrite size_list_to_set in Hsub by exact Hnodup.
  rewrite size_dom in Hsub.
  subst names. rewrite length_fmap, length_seq in Hsub. lia.
Qed.

(** X1. Given as many iterations as the file system has paths, the loop
    ends: it returns the first name, among the base name and the base name
    with suffixes [_1], [_2], ..., that does not exist. *)
Theorem unique_dir_finds_free_name (base : string) (w : world) (fuel : nat) :
  size (fs w) <= fuel ->
  exists k,
    unique_dir fuel base base 1 w = Some (candidate base k)
    /\ exists_ (candidate base k) w = false
    /\ forall j, j < k -> exists_ (candidate base j) w = true.
Proof.
  intros Hsize.
  destruct (unique_dir fuel base base 1 w) as [d|] eqn:H.
  - destruct (unique_dir_some fuel base w 0 d H) as (k & -> & Hfree & Hbusy).
    exists k. auto.
  - exfalso. apply (candidates_run_out base w fuel Hsize).
    intros j Hj. apply (unique_dir_none fuel base w 0 H j Hj).
Qed.

Lemma unique_dir_finds_free_name_witness :
  exists k,
    unique_dir 3 "/app/d/output_descriptions/description_llava_2025-03-01_10-00-00"
      "/app/d/output_descriptions/description_llava_2025-03-01_10-00-00" 1
      second_run_world
    = Some (candidate
              "/app/d/output_descriptions/description_llava_2025-03-01_10-00-00" k)
    /\ exists_ (candidate
                  "/app/d/output_descriptions/description_llava_2025-03-01_10-00-00" k)
         second_run_world = false
    /\ forall j, j < k ->
         exists_ (candidate
                    "/app/d/output_descriptions/description_llava_2025-03-01_10-00-00" j)
           second_run_world = true.
Proof.
  apply (unique_dir_finds_free_name
           "/app/d/output_descriptions/description_llava_2025-03-01_10-00-00"
           second_run_world 3).
  vm_compute. lia.
Defined.

(** X2. Whenever a saving run returns a description, the description is in
    the text file named by the bare timestamp taken at the start of the run,
    in the output directory itself, whichever name the loop found free. *)
Theorem run_writes_bare_timestamp_file
  (chat : string -> string -> list string -> M world string)
  (fuel : nat) (self : LlavaDescriptor) (out : string)
  (w : world) (d : string) (w' : world) :
  save_file self = true ->
  output_descriptions_dir self = Some out ->
  run chat fuel self w = Some (Ok d, w') ->
  exists t,
    fs w' !! path_join out
               ["description_llava_" +:+ strftime (localtime w) +:+ ".txt"]
    = Some (File t (Text d)).
Proof.
  intros Hsave Hout. unfold run, prepare_output, save_description.
  rewrite Hsave, Hout.
  destruct (unique_dir _ _ _ _ w) as [free|]; [|discriminate].
  destruct (makedirs free false w) as [[u|e] w1]; [|discriminate].
  destruct (describe chat fuel self (now w1) w1) as [[[d'|e] w2]|];
    try discriminate.
  cbv beta iota delta [bind ret attr].
  unfold write_file.
  destruct (fs w2 !! _) as [[]|] eqn:E; intros [= <- <-]; cbn [fs set_fs];
    eexists; apply lookup_insert_eq.
Qed.

Lemma run_writes_bare_timestamp_file_witness :
  exists t,
    fs second_run_result
      !! path_join "/app/d/output_descriptions"
           ["description_llava_" +:+ strftime (localtime second_run_world) +:+ ".txt"]
    = Some (File t (Text "a desk")).
Proof.
  exact (run_writes_bare_timestamp_file always_desk 2 (desk_descriptor true)
           "/app/d/output_descriptions" second_run_world "a desk"
           second_run_result eq_refl eq_refl second_run).
Defined.

End LlavaFacts.

(** ** The orchestrator *)

Module PipelineFacts.

Import Pipeline.

(** The classes a configuration selects. *)
Definition selected (method_ : string) (submethods : list string)
  (location segmentation : string) (c : cls) : bool :=
  match c with
  | RamPlusTagger => String.eqb method_ RAM_PLUS
  | LlavaDescriptor =>
      String.eqb method_ LVLM_LLM
      && match nth_error submethods 0 with
         | Some s => String.eqb s LLAVA
         | None => false
         end
  | DeepseekKeywordExtractor =>
      String.eqb method_ LVLM_LLM
      && match nth_error submethods 1 with
         | Some s => String.eqb s DEEPSEEK
         | None => false
         end
  | GroundingDinoLocator => String.eqb location GROUNDING_DINO
  | Sam2Segmenter => String.eqb segmentation SAM2
  end.

(** A computation that does nothing to the outside but construct objects
    of classes satisfying [P]. *)
Definition only_builds {A} (P : cls -> Prop) (c : M history A) : Prop :=
  forall h, exists evs,
    snd (c h) = h ++ evs
    /\ Forall (fun ev => exists k kw r, ev = Constructed k kw r /\ P k) evs.

Section Building.

Variable constructs : history -> cls -> list (string * bool) -> result unit.
Variable P : cls -> Prop.

Lemma only_builds_ret {A} (a : A) : only_builds P (ret a).
Proof. intros h. exists []. split; [now rewrite app_nil_r | constructor]. Qed.

Lemma only_builds_lift {A} (r : result A) : only_builds P (lift r).
Proof. intros h. exists []. split; [now rewrite app_nil_r | constructor]. Qed.

Lemma only_builds_new (c : cls) (kw : list (string * bool)) :
  P c -> only_builds P (new constructs c kw).
Proof.
  intros Hc h. exists [Constructed c kw (constructs h c kw)].
  split; [reflexivity|]. constructor; [|constructor]. eauto.
Qed.

(** The continuation matters only at values the first part can return. *)
Lemma only_builds_bind {A B} (c : M history A) (k : A -> M history B) :
  only_builds P c ->
  (forall a, (exists h h', c h = (Ok a, h')) -> only_builds P (k a)) ->
  only_builds P (bind c k).
Proof.
  intros Hc Hk h. destruct (Hc h) as (evs & Hh & Hevs). unfold bind.
  destruct (c h) as [[a|e] h1] eqn:Hch; cbn [snd] in Hh; subst h1.
  - destruct (Hk a (ex_intro _ h (ex_intro _ _ Hch)) (h ++ evs))
      as (evs' & Hh' & Hevs').
    exists (evs ++ evs'). rewrite app_assoc. split; [exact Hh'|].
    apply Forall_app. now split.
  - exists evs. now split.
Qed.

Lemma lift_returns {A} (r : result A) (a : A) :
  (exists h h' : history, lift r h = (Ok a, h')) -> r = Ok a.
Proof. intros (h & h' & H). unfold lift in H. congruence. Qed.

End Building.

Lemma index_nth_error {A} (l : list A) (i : nat) (a : A) :
  index l i = Ok a -> nth_error l i = Some a.
Proof. unfold index. destruct (nth_error l i); congruence. Qed.

Lemma init_only_builds_selected
  (constructs : history -> cls -> list (string * bool) -> result unit)
  (method_ : string) (submethods : list string)
  (location segmentation : string) (save : bool) :
  only_builds (fun c => selected method_ submethods location segmentation c = true)
    (init constructs method_ submethods location segmentation save).
Proof.
  unfold init. apply only_builds_bind.
  - unfold init_tagging.
    destruct (String.eqb method_ RAM_PLUS) eqn:Hram.
    + apply only_builds_bind; [|intros; apply only_builds_ret].
      apply only_builds_new. exact Hram.
    + destruct (String.eqb method_ LVLM_LLM) eqn:Hlvlm; [|apply only_builds_ret].
      apply only_builds_bind; [apply only_builds_lift|].
      intros s0 Hs0%lift_returns%index_nth_error.
      apply only_builds_bind.
      { destruct (String.eqb s0 LLAVA) eqn:Hl; [|apply only_builds_ret].
        apply only_builds_bind; [|intros; apply only_builds_ret].
        apply only_builds_new. cbn [selected]. now rewrite Hlvlm, Hs0, Hl. }
      intros d _.
      apply only_builds_bind; [apply only_builds_lift|].
      intros s1 Hs1%lift_returns%index_nth_error.
      apply only_builds_bind; [|intros; apply only_builds_ret].
      destruct (String.eqb s1 DEEPSEEK) eqn:Hd; [|apply only_builds_ret].
      apply only_builds_bind; [|intros; apply only_builds_ret].
      apply only_builds_new. cbn [selected]. now rewrite Hlvlm, Hs1, Hd.
  - intros t _. apply only_builds_bind.
    { destruct (String.eqb location GROUNDING_DINO) eqn:Hloc;
        [|apply only_builds_ret].
      apply only_builds_bind; [|intros; apply only_builds_ret].
      apply only_builds_new. exact Hloc. }
    intros loc _. apply only_builds_bind; [|intros; apply only_builds_ret].
    destruct (String.eqb segmentation SAM2) eqn:Hseg; [|apply only_builds_ret].
    apply only_builds_bind; [|intros; apply only_builds_ret].
    apply only_builds_new. exact Hseg.
Qed.

(** C5. Whatever the configuration and whatever the constructors do,
    constructing the orchestrator adds to the history nothing but
    constructor calls of classes the configuration selects. With the direct
    (RAM++) method neither the captioner nor the keyword extractor is
    constructed, and with the describe-then-extract method the direct tagger
    is not. *)
Theorem init_constructs_only_selected
  (constructs : history -> cls -> list (string * bool) -> result unit)
  (submethods : list string) (location segmentation : string) (save : bool)
  (h : history) :
  (forall method_, exists evs,
     snd (init constructs method_ submethods location segmentation save h)
     = h ++ evs
     /\ Forall (fun ev => exists c kw r,
                  ev = Constructed c kw r
                  /\ selected method_ submethods location segmentation c = true)
          evs)
  /\ (exists evs,
        snd (init constructs RAM_PLUS submethods location segmentation save h)
        = h ++ evs
        /\ forall kw r,
             ~ In (Constructed LlavaDescriptor kw r) evs
             /\ ~ In (Constructed DeepseekKeywordExtractor kw r) evs)
  /\ (exists evs,
        snd (init constructs LVLM_LLM submethods location segmentation save h)
        = h ++ evs
        /\ forall kw r, ~ In (Constructed RamPlusTagger kw r) evs).
Proof.
  split; [|split].
  - intros method_. apply init_only_builds_selected.
  - destruct (init_only_builds_selected constructs RAM_PLUS submethods
                location segmentation save h) as (evs & Hh & Hevs).
    exists evs. split; [exact Hh|]. rewrite Forall_forall in Hevs.
    intros kw r. split; intros Hin; apply list_elem_of_In, Hevs in Hin;
      destruct Hin as (c & kw' & r' & [= <- _ _] & Hsel); discriminate Hsel.
  - destruct (init_only_builds_selected constructs LVLM_LLM submethods
                location segmentation save h) as (evs & Hh & Hevs).
    exists evs. split; [exact Hh|]. rewrite Forall_forall in Hevs.
    intros kw r Hin. apply list_elem_of_In, Hevs in Hin.
    destruct Hin as (c & kw' & r' & [= <- _ _] & Hsel). discriminate Hsel.
Qed.

Section Running.

Variable behaves : history -> cls -> method -> list value -> result value.
Variable clock : history -> float.

(** A call that returns leaves one event, with the value it returned. *)
Lemma call_ok_inv (o : cls) (m : method) (a : list value)
  (h h' : history) (r : value) :
  call behaves o m a h = (Ok r, h') -> h' = h ++ [Called o m a (Ok r)].
Proof. unfold call. intros [= Hr <-]. now rewrite Hr. Qed.

(** Three calls in a row that all return leave exactly three events. *)
Lemma three_calls {A} (o : cls) (m1 m2 m3 : method) (a1 a2 a3 : list value)
  (k : value -> M history A) (h h' : history) (r : A) :
  (call behaves o m1 a1 ;; call behaves o m2 a2 ;;
   r3 <- call behaves o m3 a3 ;; k r3) h = (Ok r, h') ->
  exists r1 r2 r3 h3,
    h3 = h ++ [Called o m1 a1 (Ok r1); Called o m2 a2 (Ok r2);
               Called o m3 a3 (Ok r3)]
    /\ k r3 h3 = (Ok r, h').
Proof.
  intros H.
  apply bind_ok_inv in H as (r1 & h1 & ->%call_ok_inv & H).
  apply bind_ok_inv in H as (r2 & h2 & ->%call_ok_inv & H).
  apply bind_ok_inv in H as (r3 & h3 & ->%call_ok_inv & H).
  exists r1, r2, r3. eexists. split; [|exact H]. now rewrite <- !app_assoc.
Qed.

(** C4. A run returns exactly when, after the first reading of the clock,
    the tagging stage returns, then the location stage given the image and
    what tagging returned, then the segmentation stage given the image and
    what location returned, each starting in the history the one before left;
    the clock is then read again and the difference of the two readings is
    what the run returns. With the locator and the segmenter configured,
    the calls show it: [load_tags] receives the value tagging returned and
    [load_bbox_location] the value the locator's [run] returned. *)
Theorem run_sequences_stages (self : PipelineTLS) (input_image_name : string) :
  (forall h t h',
     run behaves clock self input_image_name h = (Ok t, h')
     <-> exists tagging_output location_output h1 h2 h3,
           tagging behaves self input_image_name (h ++ [TimeRead (clock h)])
           = (Ok tagging_output, h1)
           /\ location behaves self input_image_name tagging_output h1
              = (Ok location_output, h2)
           /\ segmentation behaves self input_image_name location_output h2
              = (Ok tt, h3)
           /\ h' = h3 ++ [TimeRead (clock h3)]
           /\ t = PrimFloat.sub (clock h3) (clock h))
  /\ (forall input_tags h r h',
        String.eqb (location_method self) GROUNDING_DINO = true ->
        location behaves self input_image_name input_tags h = (Ok r, h') ->
        exists o r1 r2,
          h' = h ++ [Called o load_image [VStr input_image_name] (Ok r1);
                     Called o load_tags [input_tags] (Ok r2);
                     Called o run_ [] (Ok r)])
  /\ (forall input_bbox_location h h',
        String.eqb (segmentation_method self) SAM2 = true ->
        segmentation behaves self input_image_name input_bbox_location h
        = (Ok tt, h') ->
        exists o r1 r2 r3,
          h' = h ++ [Called o load_image [VStr input_image_name] (Ok r1);
                     Called o load_bbox_location [input_bbox_location] (Ok r2);
                     Called o run_ [] (Ok r3)]).
Proof.
  split; [|split].
  - intros h t h'. unfold run, time_time. split.
    + intros H.
      apply bind_ok_inv in H as (t0 & h0 & Ht0 & H).
      cbv beta zeta in Ht0. injection Ht0 as <- <-.
      apply bind_ok_inv in H as (tags_out & h1 & Htag & H).
      apply bind_ok_inv in H as (loc_out & h2 & Hloc & H).
      apply bind_ok_inv in H as ([] & h3 & Hseg & H).
      apply bind_ok_inv in H as (t1 & h4 & Ht1 & H).
      cbv beta zeta in Ht1. injection Ht1 as <- <-.
      unfold ret in H. injection H as <- <-.
      exists tags_out, loc_out, h1, h2, h3. repeat split; assumption.
    + intros (tags_out & loc_out & h1 & h2 & h3 & Htag & Hloc & Hseg & -> & ->).
      erewrite bind_ok by reflexivity.
      erewrite bind_ok by exact Htag.
      erewrite bind_ok by exact Hloc.
      erewrite bind_ok by exact Hseg.
      reflexivity.
  - intros input_tags h r h' Hm. unfold location. rewrite Hm.
    destruct (locator_gdino self) as [o|]; [|discriminate].
    unfold attr. erewrite bind_ok by reflexivity.
    intros H.
    assert (H' : (call behaves o load_image [VStr input_image_name] ;;
                  call behaves o load_tags [input_tags] ;;
                  r3 <- call behaves o run_ [] ;; ret r3) h = (Ok r, h')).
    { revert H. unfold bind, ret.
      destruct (call behaves o load_image _ h) as [[r1|] h1]; [|easy].
      destruct (call behaves o load_tags _ h1) as [[r2|] h2]; [|easy].
      destruct (call behaves o run_ [] h2) as [[r3|] h3]; easy. }
    apply three_calls in H' as (r1 & r2 & r3 & h3 & -> & [= <- <-]).
    now exists o, r1, r2.
  - intros input_bbox_location h h' Hm. unfold segmentation. rewrite Hm.
    destruct (segmenter_sam2 self) as [o|]; [|discriminate].
    unfold attr. erewrite bind_ok by reflexivity.
    intros H.
    apply three_calls in H as (r1 & r2 & r3 & h3 & -> & [= <-]).
    now exists o, r1, r2, r3.
Qed.

(** The claim of C10 as it is written: [tagging] returns the empty
    dictionary. *)
Definition returns_empty_dict (self : PipelineTLS) (input_image_name : string)
  (h : history) : Prop :=
  fst (tagging behaves self input_image_name h) = Ok (VDict []).

(** C10, amended. A tagging method that is neither known one makes
    [tagging] return the empty dictionary at once, with no call made. For
    the describe-then-extract method with a second sub-method that is not
    the known keyword extractor: when the first sub-method is not the known
    captioner either, the same holds; when it is, the captioner is still
    given the image and run, and [tagging] returns the empty dictionary once
    both calls have returned, the description being dropped, while an
    exception raised by either call is the outcome of [tagging]. *)
Theorem tagging_falls_through (self : PipelineTLS) (input_image_name : string)
  (h : history) :
  (tagging_method self <> RAM_PLUS -> tagging_method self <> LVLM_LLM ->
   tagging behaves self input_image_name h = (Ok (VDict []), h))
  /\ (forall s0 s1,
        tagging_method self = LVLM_LLM ->
        nth_error (tagging_submethods self) 0 = Some s0 ->
        nth_error (tagging_submethods self) 1 = Some s1 ->
        s1 <> DEEPSEEK ->
        (s0 <> LLAVA ->
         tagging behaves self input_image_name h = (Ok (VDict []), h))
        /\ (forall o, s0 = LLAVA -> descriptor_llava self = Some o ->
            tagging behaves self input_image_name h
            = (call behaves o load_image_path [VStr input_image_name] ;;
               call behaves o run_ [] ;;
               ret (VDict [])) h)).
Proof.
  split.
  - intros Hram%String.eqb_neq Hlvlm%String.eqb_neq.
    unfold tagging. now rewrite Hram, Hlvlm.
  - intros s0 s1 Hm H0 H1 Hs1%String.eqb_neq.
    unfold tagging, describe_step, index. rewrite Hm, H0, H1.
    change (String.eqb LVLM_LLM RAM_PLUS) with false.
    change (String.eqb LVLM_LLM LVLM_LLM) with true. cbv iota.
    split.
    + intros Hs0%String.eqb_neq. unfold bind, lift, ret.
      now rewrite Hs0, Hs1.
    + intros o -> Ho. rewrite Ho.
      cbv beta iota delta [bind lift ret attr].
      change (String.eqb LLAVA LLAVA) with true. cbv beta iota.
      destruct (call behaves o load_image_path _ h) as [[r1|e1] h1];
        [|reflexivity].
      destruct (call behaves o run_ [] h1) as [[r2|e2] h2]; [|reflexivity].
      now rewrite Hs1.
Qed.

End Running.

(** Constructors that all succeed. *)
Definition constructs_ok (h : history) (c : cls) (kw : list (string * bool))
  : result unit := Ok tt.

(** Collaborators of which the captioner times out, as its own loop does
    when no usable reply comes in time; every other call returns. *)
Definition failing_captioner (h : history) (c : cls) (m : method)
  (args : list value) : result value :=
  match c, m with
  | LlavaDescriptor, run_ => Raise TimeoutError
  | _, _ => Ok VNone
  end.

(** Collaborators that all return: tags from the taggers, detections from
    the locator, a text from the captioner. *)
Definition cooperative (h : history) (c : cls) (m : method)
  (args : list value) : result value :=
  match c, m with
  | RamPlusTagger, run_ => Ok (VDict [("0", "cup")])
  | DeepseekKeywordExtractor, run_ => Ok (VDict [("0", "cup")])
  | LlavaDescriptor, run_ => Ok (VStr "a cup on a desk")
  | GroundingDinoLocator, run_ =>
      Ok (VList [{| label := "cup"; score := 1;
                    box := {| x_min := 1; y_min := 2; x_max := 3; y_max := 4 |} |}])
  | _, _ => Ok VNone
  end.

(** A clock that reads 100 before anything happened and 130 afterwards. *)
Definition two_readings (h : history) : float :=
  match h with
  | [] => 100
  | _ => 130
  end.

Definition OTHER : string := "[PIPELINE | TAGGING | KEYWORD EXTRACTION | OTHER]".

(** The orchestrator [__init__] builds for the two-step method with an
    unknown second sub-method. *)
Definition half_configured : PipelineTLS :=
  {| tagging_method := LVLM_LLM;
     tagging_submethods := [LLAVA; OTHER];
     location_method := GROUNDING_DINO;
     segmentation_method := SAM2;
     save_files := false;
     tagger_ram_plus := None;
     descriptor_llava := Some LlavaDescriptor;
     extractor_deepseek := None;
     locator_gdino := Some GroundingDinoLocator;
     segmenter_sam2 := Some Sam2Segmenter |}.

Definition half_configured_history : history :=
  [Constructed LlavaDescriptor [("save_file", false)] (Ok tt);
   Constructed GroundingDinoLocator
     [("save_file_jpg", false); ("save_file_json", false)] (Ok tt);
   Constructed Sam2Segmenter [] (Ok tt)].

(** The orchestrator for the direct method. *)
Definition direct_configured : PipelineTLS :=
  {| tagging_method := RAM_PLUS;
     tagging_submethods := [];
     location_method := GROUNDING_DINO;
     segmentation_method := SAM2;
     save_files := false;
     tagger_ram_plus := Some RamPlusTagger;
     descriptor_llava := None;
     extractor_deepseek := None;
     locator_gdino := Some GroundingDinoLocator;
     segmenter_sam2 := Some Sam2Segmenter |}.

(** C10, as stated, fails: with the two-step method, the known captioner and
    an unknown second sub-method, a captioner that times out makes [tagging]
    raise [TimeoutError]; no empty dictionary is returned. *)
Lemma tagging_surfaces_captioner_failure :
  init constructs_ok LVLM_LLM [LLAVA; OTHER] GROUNDING_DINO SAM2 false []
  = (Ok half_configured, half_configured_history)
  /\ nth_error (tagging_submethods half_configured) 1 = Some OTHER
  /\ OTHER <> DEEPSEEK
  /\ tagging failing_captioner half_configured "desk.jpg" half_configured_history
     = (Raise TimeoutError,
        half_configured_history
        ++ [Called LlavaDescriptor load_image_path [VStr "desk.jpg"] (Ok VNone);
            Called LlavaDescriptor run_ [] (Raise TimeoutError)])
  /\ ~ returns_empty_dict failing_captioner half_configured "desk.jpg"
         half_configured_history.
Proof.
  split; [reflexivity|]. split; [reflexivity|]. split; [discriminate|].
  split; [reflexivity|]. unfold returns_empty_dict. discriminate.
Qed.

Lemma tagging_falls_through_witness :
  tagging cooperative
    {| tagging_method := "[PIPELINE | TAGGING | UNKNOWN]";
       tagging_submethods := [];
       location_method := GROUNDING_DINO;
       segmentation_method := SAM2;
       save_files := false;
       tagger_ram_plus := None;
       descriptor_llava := None;
       extractor_deepseek := None;
       locator_gdino := Some GroundingDinoLocator;
       segmenter_sam2 := Some Sam2Segmenter |} "desk.jpg" []
  = (Ok (VDict []), [])
  /\ tagging cooperative half_configured "desk.jpg" half_configured_history
     = (Ok (VDict []),
        half_configured_history
        ++ [Called LlavaDescriptor load_image_path [VStr "desk.jpg"] (Ok VNone);
            Called LlavaDescriptor run_ [] (Ok (VStr "a cup on a desk"))]).
Proof.
  split.
  - apply (tagging_falls_through cooperative); discriminate.
  - rewrite (proj2 (proj2 (tagging_falls_through cooperative half_configured
                             "desk.jpg" half_configured_history)
                      LLAVA OTHER eq_refl eq_refl eq_refl
                      ltac:(discriminate))
               LlavaDescriptor eq_refl eq_refl).
    reflexivity.
Defined.

Lemma run_sequences_stages_witness :
  exists h',
    run cooperative two_readings direct_configured "desk.jpg" [] = (Ok 30%float, h')
    /\ In (Called GroundingDinoLocator load_tags [VDict [("0", "cup")]] (Ok VNone)) h'.
Proof.
  eexists. split.
  - apply (proj1 (run_sequences_stages cooperative two_readings
                    direct_configured "desk.jpg")).
    do 5 eexists.
    split; [reflexivity|]. split; [reflexivity|]. split; [reflexivity|].
    split; reflexivity.
  - cbn. auto 20.
Defined.

End PipelineFacts.

(** ** The captioner can time out *)

Module LlavaTimeout.

Import Llava LlavaFacts.

(** A descriptor whose timeout is zero seconds raises before it asks the
    model once. *)
Lemma run_times_out_at_once :
  run always_desk 0
    {| script_dir := "/app/d";
       llava_model_name := "llava:34b";
       prompt := "Describe the image.";
       iters := 1;
       save_file := false;
       timeout := 0;
       output_descriptions_dir := None;
       input_image_path := Some "/app/d/../../../input_images/desk.jpg" |}
    (at_ten [])
  = Some (Raise TimeoutError, at_ten []).
Proof. vm_compute. reflexivity. Qed.

End LlavaTimeout.

(** ** Strings, paths and time stamps *)

Module StringFacts.

Lemma substring_all (s : string) : substring 0 (String.length s) s = s.
Proof. induction s as [|c s IH]; [reflexivity|]. cbn. now rewrite IH. Qed.

Lemma substring_skip (p x : string) (k : nat) :
  substring (String.length p) k (p +:+ x) = substring 0 k x.
Proof.
  induction p as [|c p IH]; [reflexivity|].
  rewrite append_cons. cbn [String.length substring]. exact IH.
Qed.

(** A string is its first [a] characters followed by the rest. *)
Lemma substring_split (s : string) :
  forall a, a <= String.length s ->
    substring 0 a s +:+ substring a (String.length s - a) s = s.
Proof.
  induction s as [|c s IH]; intros a Ha.
  - cbn in Ha. assert (a = 0) as -> by lia. reflexivity.
  - destruct a as [|a].
    + cbn [substring String.length Nat.sub]. change ("" +:+ ?x) with x.
      f_equal. apply substring_all.
    + cbn [substring String.length Nat.sub]. rewrite append_cons. f_equal.
      apply IH. cbn in Ha. lia.
Qed.

(** [endswith] holds exactly of the strings that are some string followed
    by the suffix. *)
Lemma endswith_spec (s suffix : string) :
  endswith s suffix = true <-> exists stem, s = stem +:+ suffix.
Proof.
  unfold endswith. split.
  - intros [Hle Heq]%andb_true_iff.
    apply Nat.leb_le in Hle. apply String.eqb_eq in Heq.
    exists (substring 0 (String.length s - String.length suffix) s).
    pose proof (substring_split s (String.length s - String.length suffix)
                  ltac:(lia)) as Hsplit.
    replace (String.length s - (String.length s - String.length suffix))
      with (String.length suffix) in Hsplit by lia.
    rewrite Heq in Hsplit. now symmetry.
  - intros [stem ->]. rewrite append_length. apply andb_true_iff. split.
    + apply Nat.leb_le. lia.
    + replace (String.length stem + String.length suffix - String.length suffix)
        with (String.length stem) by lia.
      rewrite substring_skip, substring_all. apply String.eqb_refl.
Qed.

(** No [/] in a name. *)
Fixpoint plain (s : string) : bool :=
  match s with
  | EmptyString => true
  | String c rest => negb (Ascii.eqb c "/"%char) && plain rest
  end.

Lemma basename_from_plain (f : string) :
  forall acc, plain f = true -> basename_from acc f = acc +:+ f.
Proof.
  induction f as [|c f IH]; intros acc Hf.
  - cbn. now rewrite append_nil_r.
  - cbn [plain] in Hf. apply andb_true_iff in Hf as [Hc Hf].
    cbn [basename_from]. apply negb_true_iff in Hc. rewrite Hc.
    rewrite (IH _ Hf). now rewrite append_assoc.
Qed.

Lemma basename_from_after_sep (p f : string) :
  forall acc, plain f = true ->
    basename_from acc (p +:+ String "/" f) = f.
Proof.
  induction p as [|c p IH]; intros acc Hf.
  - change ("" +:+ ?x) with x. cbn [basename_from].
    change (Ascii.eqb "/" "/") with true. cbv iota.
    now rewrite basename_from_plain.
  - rewrite append_cons. cbn [basename_from].
    destruct (Ascii.eqb c "/"); now apply IH.
Qed.

Lemma plain_not_absolute (f : string) : plain f = true -> startswith f "/" = false.
Proof.
  destruct f as [|c f]; [reflexivity|]. cbn [plain]. intros [Hc _]%andb_true_iff.
  apply negb_true_iff in Hc. unfold startswith. cbn [String.prefix].
  destruct (ascii_dec "/" c) as [<-|]; [discriminate Hc | reflexivity].
Qed.

(** Joining a name without separator to a directory and taking the base
    name gives the name back. *)
Lemma basename_join (dir f : string) :
  plain f = true -> basename (path_join dir [f]) = f.
Proof.
  intros Hf. unfold basename, path_join. cbn [fold_left]. unfold join2.
  rewrite (plain_not_absolute f Hf).
  destruct (String.eqb dir "") eqn:Hd.
  - apply String.eqb_eq in Hd as ->. cbn [orb]. change ("" +:+ f) with f.
    now rewrite basename_from_plain.
  - cbn [orb]. destruct (endswith dir "/") eqn:He.
    + apply endswith_spec in He as [stem ->].
      rewrite append_assoc. change ("/" +:+ f) with (String "/" f).
      now apply basename_from_after_sep.
    + change ("/" +:+ f) with (String "/" f).
      now apply basename_from_after_sep.
Qed.


Lemma app_eq_same_length (a : string) :
  forall c b d,
    a +:+ b = c +:+ d -> String.length a = String.length c -> a = c /\ b = d.
Proof.
  induction a as [|x a IH]; intros [|y c] b d H Hlen; try discriminate Hlen.
  - now split.
  - rewrite !append_cons in H. injection H as -> H.
    cbn in Hlen. injection Hlen as Hlen.
    destruct (IH c b d H Hlen) as [-> ->]. now split.
Qed.

Lemma app_eq_same_length_r (a c b d : string) :
  a +:+ b = c +:+ d -> String.length b = String.length d -> a = c /\ b = d.
Proof.
  intros H Hlen. apply app_eq_same_length; [exact H|].
  apply (f_equal String.length) in H. rewrite !append_length in H. lia.
Qed.

Lemma pad2_length (n : nat) : n < 100 -> String.length (pad2 n) = 2.
Proof.
  intros Hn.
  do 100 (destruct n as [|n]; [reflexivity|]). lia.
Qed.

Lemma pad2_inj (n m : nat) : n < 100 -> m < 100 -> pad2 n = pad2 m -> n = m.
Proof.
  intros Hn Hm. unfold pad2.
  destruct (n <? 10)%nat eqn:En, (m <? 10)%nat eqn:Em; intros H.
  - apply (String.app_inj "0") in H. now apply LlavaFacts.str_of_nat_inj.
  - exfalso. apply Nat.ltb_ge in Em. revert H. clear -Hm Em.
    do 10 (destruct m as [|m]; [lia|]).
    do 90 (destruct m as [|m]; [discriminate|]). lia.
  - exfalso. apply Nat.ltb_ge in En. revert H. clear -Hn En.
    do 10 (destruct n as [|n]; [lia|]).
    do 90 (destruct n as [|n]; [discriminate|]). lia.
  - now apply LlavaFacts.str_of_nat_inj.
Qed.

(** The fields a clock can show: the five fields after the year have at
    most two digits. *)
Definition two_digit_fields (t : struct_time) : Prop :=
  tm_mon t < 100 /\ tm_mday t < 100 /\ tm_hour t < 100
  /\ tm_min t < 100 /\ tm_sec t < 100.

Lemma pad2_field_eq (n m : nat) (rest1 rest2 : string) :
  n < 100 -> m < 100 ->
  pad2 n +:+ rest1 = pad2 m +:+ rest2 ->
  n = m /\ rest1 = rest2.
Proof.
  intros Hn Hm H.
  apply app_eq_same_length in H as [Hp Hr];
    [|now rewrite !pad2_length].
  split; [now apply pad2_inj | exact Hr].
Qed.

(** Different times have different stamps. *)
Lemma strftime_inj (t1 t2 : struct_time) :
  two_digit_fields t1 -> two_digit_fields t2 ->
  strftime t1 = strftime t2 -> t1 = t2.
Proof.
  intros (H1a & H1b & H1c & H1d & H1e) (H2a & H2b & H2c & H2d & H2e).
  destruct t1 as [y1 mo1 d1 h1 mi1 s1], t2 as [y2 mo2 d2 h2 mi2 s2].
  unfold strftime. cbn [tm_year tm_mon tm_mday tm_hour tm_min tm_sec] in *.
  intros H.
  apply app_eq_same_length_r in H as [Hy H].
  2:{ rewrite !append_length, !pad2_length by assumption. reflexivity. }
  apply LlavaFacts.str_of_nat_inj in Hy as ->.
  apply (String.app_inj "-") in H.
  apply pad2_field_eq in H as [-> H]; try assumption.
  apply (String.app_inj "-") in H.
  apply pad2_field_eq in H as [-> H]; try assumption.
  apply (String.app_inj "_") in H.
  apply pad2_field_eq in H as [-> H]; try assumption.
  apply (String.app_inj "-") in H.
  apply pad2_field_eq in H as [-> H]; try assumption.
  apply (String.app_inj "-") in H.
  apply pad2_inj in H as ->; try assumption.
  reflexivity.
Qed.

End StringFacts.

Import StringFacts.

(** ** More on the location stage *)

Module GdinoMore.

Import Gdino GdinoFacts GdinoFiles.

Section MaxByMore.

Context {A : Type} (key : A -> result float).

Lemma max_from_in (items : list A) :
  forall best bestval m,
    max_from key best bestval items = Ok m -> m = best \/ In m items.
Proof.
  induction items as [|item rest IH]; intros best bestval m; cbn [max_from].
  - intros [= <-]. now left.
  - destruct (key item) as [val|e]; cbn [rbind]; [|discriminate].
    destruct (Py.gt val bestval); intros H%IH.
    + right. destruct H as [-> | H]; [now left | now right].
    + destruct H as [-> | H]; [now left | right; now right].
Qed.

Lemma max_by_in (items : list A) (m : A) :
  max_by key items = Ok m -> In m items.
Proof.
  destruct items as [|first rest]; cbn [max_by]; [discriminate|].
  destruct (key first) as [v|e]; cbn [rbind]; [|discriminate].
  intros [-> | H]%max_from_in; [now left | now right].
Qed.

(** A key that cannot be computed for some item makes the loop raise what
    the key raised for an item. *)
Lemma max_from_raises (items : list A) :
  forall best bestval x e0,
    In x items -> key x = Raise e0 ->
    exists e y, max_from key best bestval items = Raise e
                /\ In y items /\ key y = Raise e.
Proof.
  induction items as [|item rest IH]; intros best bestval x e0 Hx Hk; [easy|].
  cbn [max_from]. destruct (key item) as [val|e] eqn:Hitem; cbn [rbind].
  - destruct Hx as [-> | Hx]; [congruence|].
    destruct (Py.gt val bestval);
      [destruct (IH item val x e0 Hx Hk) as (e & y & H1 & H2 & H3)
      |destruct (IH best bestval x e0 Hx Hk) as (e & y & H1 & H2 & H3)];
      exists e, y; (split; [exact H1|]); (split; [now right | exact H3]).
  - exists e, item. split; [reflexivity|]. split; [now left | exact Hitem].
Qed.

Lemma max_by_raises (items : list A) (x : A) (e0 : exn) :
  In x items -> key x = Raise e0 ->
  exists e y, max_by key items = Raise e /\ In y items /\ key y = Raise e.
Proof.
  destruct items as [|first rest]; [easy|]. intros Hx Hk. cbn [max_by].
  destruct (key first) as [v|e] eqn:Hfirst; cbn [rbind].
  - destruct Hx as [-> | Hx]; [congruence|].
    destruct (max_from_raises rest first v x e0 Hx Hk) as (e & y & H1 & H2 & H3).
    exists e, y. split; [exact H1|]. split; [now right | exact H3].
  - exists e, first. split; [reflexivity|]. split; [now left | exact Hfirst].
Qed.

End MaxByMore.

Lemma getmtime_raises (w : world) (p : string) (e : exn) :
  getmtime w p = Raise e -> e = FileNotFoundError.
Proof. unfold getmtime. destruct (fs w !! p) as [[]|]; congruence. Qed.

Lemma load_json_raises (w : world) (p : string) (e : exn) :
  load_json p w = Raise e ->
  e = FileNotFoundError \/ e = IsADirectoryError \/ e = JSONDecodeError.
Proof.
  unfold load_json. destruct (fs w !! p) as [[? []|]|]; intros [= <-]; auto.
Qed.

(** X3. What [read_input_tags] returns, when the listing holds plain names
    as [os.listdir] gives them: the file name returned is one of the listed
    entries, it ends in [.json], and the content returned is what loading
    that entry of the directory gives. *)
Theorem read_input_tags_returns_entry (dir : string) (w : world)
  (m : float) (entries : list string) (content : json) (filename : string) :
  fs w !! dir = Some (Dir m entries) ->
  Forall (fun f => plain f = true) entries ->
  read_input_tags dir w = Ok (content, filename) ->
  In filename entries
  /\ (exists stem, filename = stem +:+ ".json")
  /\ load_json (path_join dir [filename]) w = Ok content.
Proof.
  intros Hdir Hplain. unfold read_input_tags, listdir. rewrite Hdir.
  cbn [rbind]. unfold json_files.
  set (names := List.filter (fun f => endswith f ".json") entries).
  destruct (map _ names) as [|p ps] eqn:Hmap; [discriminate|].
  rewrite <- Hmap.
  destruct (max_by (getmtime w) _) as [best|e] eqn:Hbest; cbn [rbind];
    [|discriminate].
  apply max_by_in in Hbest. apply in_map_iff in Hbest as (f & <- & Hf).
  subst names. apply filter_In in Hf as [Hin Hjson].
  destruct (load_json _ w) as [c|e] eqn:Hload; cbn [rbind]; [|discriminate].
  intros [= <- <-]. change (join2 dir f) with (path_join dir [f]).
  rewrite Forall_forall in Hplain.
  rewrite (basename_join dir f) by (apply Hplain, list_elem_of_In, Hin).
  split; [exact Hin|]. split; [now apply endswith_spec | exact Hload].
Qed.

Lemma read_input_tags_returns_entry_witness :
  In "third.json" ["first.json"; "third.json"; "notes.txt"; "second.json"]
  /\ (exists stem, "third.json" = stem +:+ ".json")
  /\ load_json (path_join tags_dir ["third.json"]) tags_world
     = Ok (JTags [("0", "lamp")]).
Proof.
  apply (read_input_tags_returns_entry tags_dir tags_world 400%float
           ["first.json"; "third.json"; "notes.txt"; "second.json"]).
  - vm_compute. reflexivity.
  - repeat constructor.
  - vm_compute. reflexivity.
Defined.

(** X4. How [read_input_tags] fails. Whatever it raises is one of
    [FileNotFoundError], [NotADirectoryError], [IsADirectoryError] and
    [JSONDecodeError]: the test for an empty selection keeps [max] from
    being given an empty list. And a listed [.json] entry that is not there
    any more makes it raise [FileNotFoundError], even when newer tag files
    can be read: [max] asks every entry for its modification time. *)
Theorem read_input_tags_failures (dir : string) (w : world) :
  (forall e, read_input_tags dir w = Raise e ->
     e = FileNotFoundError \/ e = NotADirectoryError
     \/ e = IsADirectoryError \/ e = JSONDecodeError)
  /\ (forall m entries f,
        fs w !! dir = Some (Dir m entries) ->
        In f entries -> endswith f ".json" = true ->
        fs w !! path_join dir [f] = None ->
        read_input_tags dir w = Raise FileNotFoundError).
Proof.
  split.
  - intros e. unfold read_input_tags, listdir.
    destruct (fs w !! dir) as [[|m entries]|]; cbn [rbind];
      try (intros [= <-]; auto).
    destruct (json_files dir entries) as [|p ps]; [intros [= <-]; auto|].
    destruct (max_by (getmtime w) (p :: ps)) as [best|e'] eqn:Hbest;
      cbn [rbind].
    + destruct (load_json best w) as [c|e''] eqn:Hload; cbn [rbind];
        [discriminate|].
      intros [= <-]. apply load_json_raises in Hload. tauto.
    + intros [= <-].
      assert (Hkey : exists y, getmtime w y = Raise e').
      { revert Hbest. cbn [max_by].
        destruct (getmtime w p) as [v|e1] eqn:Hfirst; cbn [rbind].
        - clear Hfirst. revert p v.
          induction ps as [|item rest IH]; intros first v;
            cbn [max_from]; [discriminate|].
          destruct (getmtime w item) as [val|e2] eqn:Hitem; cbn [rbind].
          + destruct (Py.gt val v); eauto.
          + intros [= <-]. eauto.
        - intros [= <-]. eauto. }
      destruct Hkey as [y Hy]. apply getmtime_raises in Hy. auto.
  - intros m entries f Hdir Hin Hjson Hgone.
    unfold read_input_tags, listdir. rewrite Hdir. cbn [rbind].
    assert (Hfile : In (path_join dir [f]) (json_files dir entries)).
    { unfold json_files. apply in_map_iff. exists f. split; [reflexivity|].
      apply filter_In. now split. }
    assert (Hkey : getmtime w (path_join dir [f]) = Raise FileNotFoundError).
    { unfold getmtime. now rewrite Hgone. }
    destruct (max_by_raises (getmtime w) _ _ _ Hfile Hkey)
      as (e & y & Hmax & _ & Hy).
    apply getmtime_raises in Hy as ->.
    destruct (json_files dir entries) as [|p ps]; [easy|].
    rewrite Hmax. reflexivity.
Qed.

(** A listing that still names a tag file that has been removed. *)
Definition stale_world : world :=
  {| fs := list_to_map
       [(tags_dir, Dir 400 ["gone.json"; "third.json"]);
        ("/app/tagging/output_tags/third.json", File 300 (Json (JTags [("0", "lamp")])))];
     localtime := localtime tags_world;
     now := 1000 |}.

Lemma read_input_tags_failures_witness :
  read_input_tags tags_dir stale_world = Raise FileNotFoundError.
Proof.
  apply (proj2 (read_input_tags_failures tags_dir stale_world)
           400%float ["gone.json"; "third.json"] "gone.json").
  - vm_compute. reflexivity.
  - now left.
  - reflexivity.
  - vm_compute. reflexivity.
Defined.

(** *** Normalization and its one failure *)

Lemma make_obj_short (l : string) (b : list float) (s : float) :
  length b < 4 -> make_obj l b s = Raise IndexError.
Proof.
  destruct b as [|b0 [|b1 [|b2 [|b3 rest]]]]; simpl; try reflexivity. lia.
Qed.

Lemma collect_outcome (labels : list string) :
  forall (boxes : list (list float)) (scores : list float),
    let n := Nat.min (length labels) (Nat.min (length boxes) (length scores)) in
    (forall e, collect (zip3 labels boxes scores) = Raise e -> e = IndexError)
    /\ (collect (zip3 labels boxes scores) = Raise IndexError
        <-> exists i b, i < n /\ boxes !! i = Some b /\ length b < 4).
Proof.
  induction labels as [|l labels IH]; intros boxes scores n.
  { split; [discriminate|]. split; [discriminate|].
    intros (i & b & Hi & _). subst n. simpl in Hi. lia. }
  destruct boxes as [|b boxes].
  { split; [discriminate|]. split; [discriminate|].
    intros (i & b & Hi & _). subst n. simpl in Hi. lia. }
  destruct scores as [|s scores].
  { split; [discriminate|]. split; [discriminate|].
    intros (i & b' & Hi & _). subst n. simpl in Hi. lia. }
  destruct (IH boxes scores) as [IHe IHiff]. cbn [zip3 collect].
  destruct (Nat.lt_ge_cases (length b) 4) as [Hshort | Hlong].
  - rewrite (make_obj_short l b s Hshort). cbn [rbind].
    split; [intros e [= <-]; reflexivity|]. split; [|reflexivity].
    intros _. exists 0, b. subst n. simpl. split; [lia|]. now split.
  - destruct (make_obj_ok l b s Hlong) as (b0 & b1 & b2 & b3 & rest & -> & ->).
    cbn [rbind].
    destruct (collect (zip3 labels boxes scores)) as [cs|e] eqn:Hc; cbn [rbind].
    + split; [discriminate|]. split; [discriminate|].
      intros ([|i] & b' & Hi & Hb & Hlen).
      * injection Hb as <-. simpl in Hlen. lia.
      * assert (Hbad : @Ok (list candidate) cs = Raise IndexError);
          [|discriminate].
        apply IHiff. exists i, b'. subst n. simpl in Hi.
        split; [lia|]. now split.
    + pose proof (IHe e eq_refl) as ->. split.
      * now intros e' [= <-].
      * split; [|reflexivity].
        intros _. destruct (proj1 IHiff eq_refl) as (i & b' & Hi & Hb & Hlen).
        exists (S i), b'. subst n. simpl. split; [lia|]. now split.
Qed.

(** X5. Normalization fails in one way only: it raises [IndexError], and it
    does so exactly when, among the positions it zips (those below the
    length of the shortest array), some box has fewer than four
    coordinates; no partial list is returned then. *)
Theorem gdino_results_to_json_raises (r : raw_results) :
  let labels := get_or_empty (raw_labels r) in
  let boxes := get_or_empty (raw_boxes r) in
  let scores := get_or_empty (raw_scores r) in
  let n := Nat.min (length labels) (Nat.min (length boxes) (length scores)) in
  (forall e, gdino_results_to_json r = Raise e -> e = IndexError)
  /\ (gdino_results_to_json r = Raise IndexError
      <-> exists i b, i < n /\ boxes !! i = Some b /\ length b < 4).
Proof.
  intros labels boxes scores n. unfold gdino_results_to_json.
  apply collect_outcome.
Qed.

(** *** Laws of the confidence filter *)

Lemma nan_not_below (t s : float) :
  PrimFloat.eqb t t = false -> PrimFloat.ltb t s = false /\ PrimFloat.ltb s t = false.
Proof.
  rewrite FloatAxioms.eqb_spec, !ltb_spec. unfold SFeqb, SFltb.
  destruct (Prim2SF t) as [[]|[]| |[] m e]; cbn [SFcompare];
    try discriminate.
  - intros _. split; [reflexivity|]. now destruct (Prim2SF s).
  - rewrite Z.compare_refl.
    change (PosDef.Pos.compare_cont Eq) with Pos.compare.
    rewrite Pos.compare_refl. discriminate.
  - rewrite Z.compare_refl.
    change (PosDef.Pos.compare_cont Eq) with Pos.compare.
    rewrite Pos.compare_refl. discriminate.
Qed.

(** X6. Laws of the confidence filter. Filtering twice at the same
    threshold is filtering once; filtering at a threshold and then at a
    greater one is filtering at the greater one, so raising the threshold
    never adds a detection; a threshold that is not a number keeps nothing,
    and a candidate whose score is not a number is never kept. *)
Theorem filter_confidence_laws :
  (forall rs t,
     filter_confidence (filter_confidence rs t) t = filter_confidence rs t)
  /\ (forall rs t1 t2,
        PrimFloat.ltb t1 t2 = true ->
        filter_confidence (filter_confidence rs t1) t2 = filter_confidence rs t2)
  /\ (forall rs t, PrimFloat.eqb t t = false -> filter_confidence rs t = [])
  /\ (forall rs t c,
        PrimFloat.eqb (score c) (score c) = false ->
        ~ In c (filter_confidence rs t)).
Proof.
  split; [|split; [|split]].
  - intros rs t. induction rs as [|c rs IH]; [reflexivity|].
    rewrite filter_confidence_cons. destruct (Py.gt (score c) t) eqn:E.
    + rewrite filter_confidence_cons, E. now rewrite IH.
    + exact IH.
  - intros rs t1 t2 Hlt. induction rs as [|c rs IH]; [reflexivity|].
    rewrite !filter_confidence_cons.
    destruct (Py.gt (score c) t2) eqn:E2.
    + assert (E1 : Py.gt (score c) t1 = true)
        by (unfold Py.gt in *; exact (ltb_trans _ _ _ Hlt E2)).
      rewrite E1, filter_confidence_cons, E2. now rewrite IH.
    + destruct (Py.gt (score c) t1); [|exact IH].
      rewrite filter_confidence_cons, E2. exact IH.
  - intros rs t Hnan. induction rs as [|c rs IH]; [reflexivity|].
    rewrite filter_confidence_cons. unfold Py.gt.
    now rewrite (proj1 (nan_not_below t (score c) Hnan)).
  - intros rs t c Hnan Hin. unfold filter_confidence in Hin.
    apply filter_In in Hin as [_ Hgt]. unfold Py.gt in Hgt.
    rewrite (proj2 (nan_not_below (score c) t Hnan)) in Hgt. discriminate.
Qed.

#[warnings="-inexact-float"]
Definition short_box : raw_results :=
  {| raw_scores := Some [0.9; 0.8]%float;
     raw_boxes := Some [[1; 2; 3; 4]; [5; 6]]%float;
     raw_labels := Some ["cup"; "table"] |}.

Lemma gdino_results_to_json_raises_witness :
  gdino_results_to_json short_box = Raise IndexError.
Proof.
  apply (proj2 (gdino_results_to_json_raises short_box)).
  exists 1, [5; 6]%float. cbn. split; [lia|]. split; [reflexivity | lia].
Defined.

Lemma filter_confidence_laws_witness :
  filter_confidence three_scores PrimFloat.nan = []
  /\ filter_confidence (filter_confidence three_scores 0.25) 0.5
     = filter_confidence three_scores 0.5.
Proof.
  split.
  - apply (proj1 (proj2 (proj2 filter_confidence_laws))). reflexivity.
  - apply (proj1 (proj2 filter_confidence_laws)). reflexivity.
Defined.

(** *** What a run of the locator returns, raises and touches *)

Lemma collect_ok_inv (labels : list string) :
  forall (boxes : list (list float)) (scores : list float) (cs : list candidate),
    collect (zip3 labels boxes scores) = Ok cs ->
    length cs = Nat.min (length labels) (Nat.min (length boxes) (length scores))
    /\ forall i c, cs !! i = Some c ->
         exists rest,
           labels !! i = Some (label c)
           /\ scores !! i = Some (score c)
           /\ boxes !! i = Some (x_min (box c) :: y_min (box c) :: x_max (box c)
                                 :: y_max (box c) :: rest).
Proof.
  induction labels as [|l labels IH]; intros boxes scores cs.
  { intros [= <-]. split; [reflexivity|]. intros i c Hi. destruct i; discriminate. }
  destruct boxes as [|b boxes].
  { intros [= <-]. split; [reflexivity|]. intros i c Hi. destruct i; discriminate. }
  destruct scores as [|s scores].
  { intros [= <-]. split; [simpl; lia|]. intros i c Hi. destruct i; discriminate. }
  cbn [zip3 collect].
  destruct (Nat.lt_ge_cases (length b) 4) as [Hshort | Hlong].
  { rewrite (make_obj_short l b s Hshort). discriminate. }
  destruct (make_obj_ok l b s Hlong) as (b0 & b1 & b2 & b3 & rest & -> & ->).
  cbn [rbind].
  destruct (collect (zip3 labels boxes scores)) as [cs'|e] eqn:Hc; cbn [rbind];
    [|discriminate].
  intros [= <-]. destruct (IH boxes scores cs' Hc) as [Hlen Hat].
  split; [simpl; lia|].
  intros [|i] c Hi.
  - injection Hi as <-. exists rest. repeat split.
  - apply (Hat i c Hi).
Qed.

Lemma write_file_frame (p : string) (c : content) (w : world) :
  localtime (snd (write_file p c w)) = localtime w
  /\ now (snd (write_file p c w)) = now w
  /\ forall q, q <> p -> fs (snd (write_file p c w)) !! q = fs w !! q.
Proof.
  unfold write_file.
  destruct (fs w !! p) as [[]|]; cbn [snd fs set_fs localtime now];
    repeat split; auto; intros q Hq; now rewrite lookup_insert_ne.
Qed.

Lemma write_file_raises (p : string) (c : content) (w w' : world) (e : exn) :
  write_file p c w = (Raise e, w') -> e = IsADirectoryError /\ w' = w.
Proof.
  unfold write_file. destruct (fs w !! p) as [[]|]; intros [= <- <-]; auto.
Qed.

Section LocatorRuns.

Variable detect : image -> string -> result raw_results.

(** X7. Every candidate a run of the locator returns has a score strictly
    above the locator's threshold and carries the label, the score and the
    first four box coordinates the detector reported at one and the same
    position; the list returned is the normalized list with the other
    candidates taken out, in the same order. *)
Theorem locate_objects_returns_detections
  (self : GroundingDinoLocator) (tags_in : tags) (w w' : world)
  (kept : list candidate) :
  locate_objects detect self tags_in w = (Ok kept, w') ->
  exists raw cs,
    detect (input_image self) (json_to_gdino_prompt tags_in) = Ok raw
    /\ gdino_results_to_json raw = Ok cs
    /\ kept = filter_confidence cs (score_threshold self)
    /\ sublist kept cs
    /\ forall c, In c kept ->
         PrimFloat.ltb (score_threshold self) (score c) = true
         /\ exists i rest,
              get_or_empty (raw_labels raw) !! i = Some (label c)
              /\ get_or_empty (raw_scores raw) !! i = Some (score c)
              /\ get_or_empty (raw_boxes raw) !! i
                 = Some (x_min (box c) :: y_min (box c) :: x_max (box c)
                         :: y_max (box c) :: rest).
Proof.
  unfold locate_objects. intros H.
  apply bind_ok_inv in H as (raw & w1 & Hraw & H).
  apply bind_ok_inv in H as (cs & w2 & Hcs & H).
  unfold lift in Hraw, Hcs. injection Hraw as Hraw <-. injection Hcs as Hcs <-.
  apply bind_ok_inv in H as (u1 & w3 & _ & H).
  apply bind_ok_inv in H as (u2 & w4 & _ & H).
  unfold ret in H. injection H as <- <-.
  exists raw, cs. split; [exact Hraw|]. split; [exact Hcs|].
  split; [reflexivity|]. split.
  - unfold filter_confidence. clear. induction cs as [|c cs IH]; [constructor|].
    cbn [List.filter]. destruct (Py.gt (score c) (score_threshold self)).
    + now apply sublist_skip.
    + now apply sublist_cons.
  - intros c Hc. unfold filter_confidence in Hc.
    apply filter_In in Hc as [Hin Hgt]. split; [exact Hgt|].
    apply list_elem_of_In, list_elem_of_lookup in Hin as [i Hi].
    unfold gdino_results_to_json in Hcs.
    destruct (collect_ok_inv _ _ _ _ Hcs) as [_ Hat].
    destruct (Hat i c Hi) as (rest & Hl & Hs & Hb).
    exists i, rest. now repeat split.
Qed.

(** X8. What a run of the locator touches. The clock is left alone, and no
    path other than the locator's two output paths changes, whatever the
    outcome. With both save flags off the world is left as it was. A run
    that fails because the detector or the normalization raises has written
    nothing. *)
Theorem locate_objects_touches_only_outputs
  (self : GroundingDinoLocator) (tags_in : tags) (w : world) :
  let w' := snd (locate_objects detect self tags_in w) in
  localtime w' = localtime w
  /\ now w' = now w
  /\ (forall p, output_file_json self <> Some p ->
                output_file_jpg self <> Some p ->
                fs w' !! p = fs w !! p)
  /\ (save_file_json self = false -> save_file_jpg self = false -> w' = w)
  /\ (forall e, detect (input_image self) (json_to_gdino_prompt tags_in) = Raise e ->
        locate_objects detect self tags_in w = (Raise e, w))
  /\ (forall raw e,
        detect (input_image self) (json_to_gdino_prompt tags_in) = Ok raw ->
        gdino_results_to_json raw = Raise e ->
        locate_objects detect self tags_in w = (Raise e, w)).
Proof.
  cbv zeta. unfold locate_objects, bind, lift, when, attr, ret, throw.
  destruct (detect _ _) as [raw|e0].
  2:{ cbn [snd]. repeat split; auto; try discriminate. now intros e [= <-]. }
  destruct (gdino_results_to_json raw) as [cs|e1] eqn:Hnorm.
  2:{ cbn [snd]. repeat split; auto; try discriminate.
      intros raw' e [= <-] He. congruence. }
  set (kept := filter_confidence cs (score_threshold self)).
  destruct (save_file_json self), (save_file_jpg self);
    destruct (output_file_json self) as [pj|],
             (output_file_jpg self) as [pi|];
    repeat match goal with
    | |- context [write_file ?p ?c ?w0] =>
        let F := fresh "F" in
        pose proof (write_file_frame p c w0) as F;
        destruct (write_file p c w0) as [[[]|?] ?];
        cbn [snd] in F; destruct F as (? & ? & ?)
    end;
    cbn [snd];
    (split; [congruence|]); (split; [congruence|]);
    (split; [intros p Hp1 Hp2;
             repeat match goal with
             | H : forall q, q <> ?x -> _ = _ |- _ =>
                 rewrite H by congruence; clear H
             end; reflexivity|]);
    (split; [try discriminate; reflexivity|]);
    (split; [discriminate|]);
    intros raw' e' [= <-] He'; congruence.
Qed.

End LocatorRuns.

(** The run of [desk_locator] seven seconds after its construction. *)
Definition desk_run_result : world :=
  snd (locate_objects desk_detect desk_locator desk_tags
         (seven_seconds_later desk_world_built)).

#[warnings="-inexact-float"]
Definition desk_cup : candidate :=
  {| label := "cup"; score := 0.9;
     box := {| x_min := 1; y_min := 2; x_max := 3; y_max := 4 |} |}.

Lemma desk_run :
  locate_objects desk_detect desk_locator desk_tags
    (seven_seconds_later desk_world_built)
  = (Ok [desk_cup], desk_run_result).
Proof. vm_compute. reflexivity. Qed.

Lemma locate_objects_returns_detections_witness :
  exists raw cs,
    desk_detect (input_image desk_locator) (json_to_gdino_prompt desk_tags) = Ok raw
    /\ gdino_results_to_json raw = Ok cs
    /\ [desk_cup] = filter_confidence cs (score_threshold desk_locator)
    /\ sublist [desk_cup] cs
    /\ forall c, In c [desk_cup] ->
         PrimFloat.ltb (score_threshold desk_locator) (score c) = true
         /\ exists i rest,
              get_or_empty (raw_labels raw) !! i = Some (label c)
              /\ get_or_empty (raw_scores raw) !! i = Some (score c)
              /\ get_or_empty (raw_boxes raw) !! i
                 = Some (x_min (box c) :: y_min (box c) :: x_max (box c)
                         :: y_max (box c) :: rest).
Proof.
  exact (locate_objects_returns_detections desk_detect desk_locator desk_tags
           _ _ _ desk_run).
Defined.

(** *** Construction of the locator *)

Lemma makedirs_outcome (p : string) (w : world) :
  (exists w', makedirs p true w = (Ok tt, w')
              /\ w' = if exists_ p w then w
                      else set_fs (insert p (Dir (now w) [])) w)
  \/ makedirs p true w = (Raise FileExistsError, w).
Proof.
  unfold makedirs, exists_. destruct (fs w !! p) as [[]|]; eauto.
Qed.

(** X9. Construction of the locator is all or nothing. When it raises, the
    world is as before: no output directory has been made. A missing input
    image makes it raise [FileNotFoundError] before the tags are looked for.
    When it returns, the image it holds is the picture in the file
    [../input_images/<name>], its tags are what [read_input_tags] gives for
    [../tagging/output_tags], and the only change to the world is that the
    output directory has been made, empty, if a save flag is set and
    nothing was at its path. *)
Theorem gdino_init_all_or_nothing (dir name : string) (thr : float)
  (sj sp : bool) (w : world) :
  let image_path := path_join dir [".."; "input_images"; name] in
  let tags_path := path_join dir [".."; "tagging"; "output_tags"] in
  let out := path_join dir ["output_location"] in
  (forall e w', init dir name thr sj sp w = (Raise e, w') -> w' = w)
  /\ (isfile image_path w = false ->
      init dir name thr sj sp w = (Raise FileNotFoundError, w))
  /\ (forall self w',
        init dir name thr sj sp w = (Ok self, w') ->
        (exists t, fs w !! image_path = Some (File t (Picture (input_image self))))
        /\ (exists filename,
              read_input_tags tags_path w = Ok (input_tags self, filename))
        /\ w' = if (sj || sp) && negb (exists_ out w)
                then set_fs (insert out (Dir (now w) [])) w
                else w).
Proof.
  cbv zeta. unfold init, bind, reads, ret, throw.
  destruct (isfile _ w) eqn:Hisf.
  2:{ split; [now intros e w' [= <- <-]|]. split; [reflexivity | discriminate]. }
  destruct (image_open _ w) as [img|e0] eqn:Himg.
  2:{ split; [now intros e w' [= <- <-]|]. split; discriminate. }
  destruct (read_input_tags _ w) as [[tg fname]|e0] eqn:Hread.
  2:{ split; [now intros e w' [= <- <-]|]. split; discriminate. }
  assert (Hpic : exists t,
             fs w !! path_join dir [".."; "input_images"; name]
             = Some (File t (Picture img))).
  { unfold image_open in Himg.
    destruct (fs w !! _) as [[t []|]|]; try discriminate.
    injection Himg as <-. eauto. }
  destruct (sj || sp).
  - destruct (makedirs_outcome (path_join dir ["output_location"]) w)
      as [(w1 & -> & ->) | ->].
    + split; [discriminate|]. split; [discriminate|].
      intros self w' [= <- <-]. cbn [input_image input_tags fst andb].
      split; [exact Hpic|]. split; [eauto|].
      now destruct (exists_ _ w).
    + split; [now intros e w' [= <- <-]|]. split; discriminate.
  - split; [discriminate|]. split; [discriminate|].
    intros self w' [= <- <-]. cbn [input_image input_tags fst andb].
    split; [exact Hpic|]. split; [eauto | reflexivity].
Qed.

Lemma gdino_init_all_or_nothing_witness :
  (exists t,
     fs desk_world !! path_join "/app/location" [".."; "input_images"; "desk.jpg"]
     = Some (File t (Picture (input_image desk_locator))))
  /\ (exists filename,
        read_input_tags (path_join "/app/location" [".."; "tagging"; "output_tags"])
          desk_world
        = Ok (input_tags desk_locator, filename))
  /\ desk_world_built
     = if (true || true)
          && negb (exists_ (path_join "/app/location" ["output_location"]) desk_world)
       then set_fs (insert (path_join "/app/location" ["output_location"])
                      (Dir (now desk_world) [])) desk_world
       else desk_world.
Proof.
  exact (proj2 (proj2 (gdino_init_all_or_nothing "/app/location" "desk.jpg"
                         default_score_threshold true true desk_world))
           desk_locator desk_world_built desk_init).
Defined.

Section ConstructedLocator.

Variable detect : image -> string -> result raw_results.

(** X10. A locator that [__init__] returned has the output path of every
    save flag that is set, so a run of it never fails for a missing
    attribute: whatever it raises was raised by the detector, or is the
    [IndexError] of the normalization, or is the [IsADirectoryError] of a
    write to a path at which a directory lies. *)
Theorem constructed_locator_errors (dir name : string) (thr : float)
  (sj sp : bool) (w0 w1 w w' : world) (self : GroundingDinoLocator)
  (tags_in : tags) (e : exn) :
  init dir name thr sj sp w0 = (Ok self, w1) ->
  locate_objects detect self tags_in w = (Raise e, w') ->
  detect (input_image self) (json_to_gdino_prompt tags_in) = Raise e
  \/ (exists raw,
        detect (input_image self) (json_to_gdino_prompt tags_in) = Ok raw
        /\ gdino_results_to_json raw = Raise e /\ e = IndexError)
  \/ e = IsADirectoryError.
Proof.
  intros Hinit.
  destruct (init_output_files _ _ _ _ _ _ _ _ Hinit)
    as (_ & _ & Hsj & Hsp & Hoj & Hop).
  unfold locate_objects, bind, lift, when, attr, ret, throw.
  destruct (detect _ _) as [raw|e0]; [|intros [= <- <-]; now left].
  destruct (gdino_results_to_json raw) as [cs|e1] eqn:Hnorm.
  2:{ intros [= <- <-]. right. left. exists raw. split; [reflexivity|].
      split; [exact Hnorm|].
      unfold gdino_results_to_json in Hnorm.
      exact (proj1 (collect_outcome _ _ _) _ Hnorm). }
  rewrite Hsj, Hsp, Hoj, Hop.
  destruct sj, sp;
    repeat match goal with
    | |- context [write_file ?p ?c ?w0] =>
        let E := fresh "E" in
        destruct (write_file p c w0) as [[[]|?] ?] eqn:E;
        try (apply write_file_raises in E as [-> ->])
    end;
    intros [= <- <-] || discriminate; now right; right.
Qed.

End ConstructedLocator.

Lemma last_char_eq (a b : string) (x y : ascii) :
  a +:+ String x "" = b +:+ String y "" -> x = y.
Proof.
  intros H. apply app_eq_same_length_r in H as [_ H]; [|reflexivity].
  now injection H.
Qed.

(** Names made from different stamps, or with different extensions, differ. *)
Lemma location_names_differ (out ts1 ts2 ext1 ext2 : string) :
  (ext1 = ".json" \/ ext1 = ".jpg") -> (ext2 = ".json" \/ ext2 = ".jpg") ->
  path_join out ["location_gdino_" +:+ ts1 +:+ ext1]
  = path_join out ["location_gdino_" +:+ ts2 +:+ ext2] ->
  ts1 = ts2 /\ ext1 = ext2.
Proof.
  intros H1 H2 H. unfold path_join in H. cbn [fold_left] in H.
  apply join2_relative_inj in H; [|reflexivity|reflexivity].
  apply (String.app_inj "location_gdino_") in H.
  destruct H1 as [-> | ->], H2 as [-> | ->].
  - apply app_eq_same_length_r in H as [-> _]; [now split | reflexivity].
  - exfalso. change ".json" with (".jso" +:+ "n") in H.
    change ".jpg" with (".jp" +:+ "g") in H.
    rewrite <- !append_assoc in H. apply last_char_eq in H. discriminate.
  - exfalso. change ".json" with (".jso" +:+ "n") in H.
    change ".jpg" with (".jp" +:+ "g") in H.
    rewrite <- !append_assoc in H. apply last_char_eq in H. discriminate.
  - apply app_eq_same_length_r in H as [-> _]; [now split | reflexivity].
Qed.

(** X11. Two locators constructed in the same source directory at
    different local times have no output path in common: the runs of the
    one never replace a file of the other. *)
Theorem locators_of_different_times_write_apart
  (dir name1 name2 : string) (thr1 thr2 : float) (sj1 sp1 sj2 sp2 : bool)
  (wa wa' wb wb' : world) (s1 s2 : GroundingDinoLocator) (p q : string) :
  init dir name1 thr1 sj1 sp1 wa = (Ok s1, wa') ->
  init dir name2 thr2 sj2 sp2 wb = (Ok s2, wb') ->
  two_digit_fields (localtime wa) -> two_digit_fields (localtime wb) ->
  localtime wa <> localtime wb ->
  output_file_json s1 = Some p \/ output_file_jpg s1 = Some p ->
  output_file_json s2 = Some q \/ output_file_jpg s2 = Some q ->
  p <> q.
Proof.
  intros Ha Hb Hva Hvb Hne Hp Hq Heq. subst q.
  destruct (init_output_files _ _ _ _ _ _ _ _ Ha) as (_ & _ & _ & _ & Hj1 & Hp1).
  destruct (init_output_files _ _ _ _ _ _ _ _ Hb) as (_ & _ & _ & _ & Hj2 & Hp2).
  assert (H1 : exists ext, (ext = ".json" \/ ext = ".jpg")
             /\ p = path_join (path_join dir ["output_location"])
                      ["location_gdino_" +:+ strftime (localtime wa) +:+ ext]).
  { destruct Hp as [Hp | Hp]; [rewrite Hj1 in Hp | rewrite Hp1 in Hp].
    - destruct sj1; [|discriminate]. injection Hp as <-. eauto.
    - destruct sp1; [|discriminate]. injection Hp as <-. eauto. }
  assert (H2 : exists ext, (ext = ".json" \/ ext = ".jpg")
             /\ p = path_join (path_join dir ["output_location"])
                      ["location_gdino_" +:+ strftime (localtime wb) +:+ ext]).
  { destruct Hq as [Hq | Hq]; [rewrite Hj2 in Hq | rewrite Hp2 in Hq].
    - destruct sj2; [|discriminate]. injection Hq as <-. eauto.
    - destruct sp2; [|discriminate]. injection Hq as <-. eauto. }
  destruct H1 as (e1 & He1 & ->), H2 as (e2 & He2 & H).
  apply location_names_differ in H as [Hts _]; try assumption.
  apply Hne. now apply strftime_inj.
Qed.

(** The locator of [desk_world] built seven seconds later. *)
Definition late_locator : GroundingDinoLocator :=
  {| script_dir := "/app/location";
     score_threshold := default_score_threshold;
     save_file_json := true;
     save_file_jpg := true;
     input_image := Photo "desk";
     input_tags := JTags [("0", "cup"); ("1", "table")];
     output_file_json :=
       Some "/app/location/output_location/location_gdino_2025-03-01_10-00-07.json";
     output_file_jpg :=
       Some "/app/location/output_location/location_gdino_2025-03-01_10-00-07.jpg" |}.

Definition late_world_built : world :=
  set_fs (insert "/app/location/output_location" (Dir 1007 []))
    (seven_seconds_later desk_world).

Lemma late_init :
  init "/app/location" "desk.jpg" default_score_threshold true true
    (seven_seconds_later desk_world)
  = (Ok late_locator, late_world_built).
Proof. vm_compute. reflexivity. Qed.

Lemma locators_of_different_times_write_apart_witness :
  String.eqb
    "/app/location/output_location/location_gdino_2025-03-01_10-00-00.json"
    "/app/location/output_location/location_gdino_2025-03-01_10-00-07.json"
  = false.
Proof.
  apply String.eqb_neq.
  apply (locators_of_different_times_write_apart
           "/app/location" "desk.jpg" "desk.jpg"
           default_score_threshold default_score_threshold true true true true
           desk_world desk_world_built
           (seven_seconds_later desk_world) late_world_built
           desk_locator late_locator _ _ desk_init late_init).
  - unfold two_digit_fields. cbn. lia.
  - unfold two_digit_fields. cbn. lia.
  - discriminate.
  - now left.
  - now left.
Defined.

(** A detector that fails. *)
Definition failing_detect (img : image) (text : string) : result raw_results :=
  Raise (RuntimeError "CUDA out of memory").

Lemma constructed_locator_errors_witness :
  failing_detect (input_image desk_locator) (json_to_gdino_prompt desk_tags)
  = Raise (RuntimeError "CUDA out of memory")
  \/ (exists raw,
        failing_detect (input_image desk_locator) (json_to_gdino_prompt desk_tags)
        = Ok raw
        /\ gdino_results_to_json raw = Raise (RuntimeError "CUDA out of memory")
        /\ RuntimeError "CUDA out of memory" = IndexError)
  \/ RuntimeError "CUDA out of memory" = IsADirectoryError.
Proof.
  exact (constructed_locator_errors failing_detect "/app/location" "desk.jpg"
           default_score_threshold true true desk_world desk_world_built
           desk_world_built desk_world_built desk_locator desk_tags _
           desk_init eq_refl).
Defined.

End GdinoMore.

(** ** More on the captioning collaborator *)

Module LlavaMore.

Import Llava LlavaFacts.

(** Every character is whitespace. *)
Fixpoint all_space (s : string) : bool :=
  match s with
  | EmptyString => true
  | String c rest => isspace c && all_space rest
  end.

Lemma lstrip_all_space (s : string) : all_space s = true -> lstrip s = "".
Proof.
  induction s as [|c s IH]; [reflexivity|]. cbn [all_space lstrip].
  intros [-> Hs]%andb_true_iff. now apply IH.
Qed.

Lemma rstrip_all_space (s : string) : all_space s = true -> rstrip s = "".
Proof.
  induction s as [|c s IH]; [reflexivity|]. cbn [all_space rstrip].
  intros [-> Hs]%andb_true_iff. now rewrite (IH Hs).
Qed.

Lemma rstrip_empty_inv (s : string) : rstrip s = "" -> all_space s = true.
Proof.
  induction s as [|c s IH]; [reflexivity|]. cbn [all_space rstrip].
  destruct (rstrip s) as [|c' r]; [|discriminate].
  destruct (isspace c); [|discriminate]. intros _. now apply IH.
Qed.

Lemma all_space_app (a b : string) :
  all_space (a +:+ b) = all_space a && all_space b.
Proof.
  induction a as [|c a IH]; [reflexivity|].
  rewrite append_cons. cbn [all_space]. rewrite IH. now rewrite andb_assoc.
Qed.

(** What [lstrip] takes off is whitespace, and what is left does not start
    with whitespace. *)
Lemma lstrip_spec (s : string) :
  exists l,
    s = l +:+ lstrip s /\ all_space l = true
    /\ match lstrip s with
       | EmptyString => True
       | String c _ => isspace c = false
       end.
Proof.
  induction s as [|c s (l & Hs & Hl & Hhead)].
  - exists "". repeat split.
  - cbn [lstrip]. destruct (isspace c) eqn:Hc.
    + exists (String c l). rewrite append_cons, <- Hs.
      split; [reflexivity|]. split; [|exact Hhead].
      cbn [all_space]. now rewrite Hc, Hl.
    + exists "". repeat split. exact Hc.
Qed.

(** The last character is not whitespace. *)
Fixpoint ends_nonspace (s : string) : bool :=
  match s with
  | EmptyString => false
  | String c EmptyString => negb (isspace c)
  | String _ rest => ends_nonspace rest
  end.

(** What [rstrip] takes off is whitespace, what is left does not end with
    whitespace, and it starts as the string did. *)
Lemma rstrip_spec (s : string) :
  exists r,
    s = rstrip s +:+ r /\ all_space r = true
    /\ (rstrip s = "" \/ ends_nonspace (rstrip s) = true)
    /\ match s with
       | EmptyString => True
       | String c _ =>
           isspace c = false -> exists rest, rstrip s = String c rest
       end.
Proof.
  induction s as [|c s (r & Hs & Hr & Hend & _)].
  - exists "". repeat split. now left.
  - cbn [rstrip]. destruct (rstrip s) as [|c' r'] eqn:Hrs.
    + destruct (isspace c) eqn:Hc.
      * exists (String c s). split; [reflexivity|]. split.
        -- cbn [all_space]. rewrite Hc. cbn [andb].
           now apply rstrip_empty_inv.
        -- split; [now left | discriminate].
      * exists s. split; [reflexivity|]. split.
        -- now apply rstrip_empty_inv.
        -- split; [right; cbn; now rewrite Hc | eauto].
    + exists r. rewrite append_cons, <- Hs. split; [reflexivity|].
      split; [exact Hr|]. split; [|eauto].
      right. destruct Hend as [Hend | Hend]; [discriminate|].
      exact Hend.
Qed.

(** [strip] takes whitespace off both ends and nothing else: what is left
    neither starts nor ends with whitespace, and is empty exactly when the
    string was all whitespace. *)
Lemma strip_spec (s : string) :
  (exists l r,
     s = l +:+ strip s +:+ r /\ all_space l = true /\ all_space r = true)
  /\ match strip s with
     | EmptyString => True
     | String c _ => isspace c = false
     end
  /\ (strip s = "" \/ ends_nonspace (strip s) = true)
  /\ (truthy (strip s) = true <-> all_space s = false).
Proof.
  unfold strip.
  destruct (lstrip_spec s) as (l & Hs & Hl & Hhead).
  destruct (rstrip_spec (lstrip s)) as (r & Hm & Hr & Hend & Hkeep).
  split; [|split; [|split]].
  - exists l, r. split; [|now split]. rewrite <- Hm. exact Hs.
  - destruct (lstrip s) as [|c m]; [exact I|].
    destruct (Hkeep Hhead) as [rest ->]. exact Hhead.
  - exact Hend.
  - rewrite Hs at 2. rewrite all_space_app, Hl. cbn [andb].
    destruct (lstrip s) as [|c m] eqn:Hls.
    + cbn. split; discriminate.
    + destruct (Hkeep Hhead) as [rest ->]. cbn [truthy all_space].
      rewrite Hhead. cbn [andb]. tauto.
Qed.

Section LoopMore.

Variable chat : string -> string -> list string -> M world string.

(** The loop returns a reply as the model gave it. *)
Lemma describe_ok_inv (fuel : nat) (self : LlavaDescriptor) (start_time : float) :
  forall w d w',
    describe chat fuel self start_time w = Some (Ok d, w') ->
    exists img wa,
      input_image_path self = Some img
      /\ chat (llava_model_name self) (prompt self) [img] wa = (Ok d, w')
      /\ truthy (strip d) = true.
Proof.
  induction fuel as [|k IH]; intros w d w'; cbn [describe];
    (destruct (PrimFloat.ltb _ _); [|discriminate]);
    (destruct (input_image_path self) as [img|] eqn:Hi; [|discriminate]);
    (destruct (chat _ _ _ w) as [[d0|e] w1] eqn:Hc; [|discriminate]);
    (destruct (truthy (strip d0)) eqn:Hs; [intros [= <- <-]; eauto|]).
  - discriminate.
  - intros H. destruct (IH _ _ _ H) as (img' & wa & [= <-] & Hc' & Hs').
    eauto.
Qed.

(** The loop raises on a timeout, or what the model raised. *)
Lemma describe_raise_inv (fuel : nat) (self : LlavaDescriptor)
  (start_time : float) (img : string) :
  input_image_path self = Some img ->
  forall w e w',
    describe chat fuel self start_time w = Some (Raise e, w') ->
    e = TimeoutError
    \/ exists wa, chat (llava_model_name self) (prompt self) [img] wa
                  = (Raise e, w').
Proof.
  intros Hi.
  induction fuel as [|k IH]; intros w e w'; cbn [describe]; rewrite Hi;
    (destruct (PrimFloat.ltb _ _); [|intros [= <- <-]; now left]);
    (destruct (chat _ _ _ w) as [[d0|e0] w1] eqn:Hc;
       [|intros [= <- <-]; right; eauto]);
    (destruct (truthy (strip d0)); [discriminate|]).
  - discriminate.
  - apply IH.
Qed.





(** X18. What a run returns is a reply of the model as the model gave it,
    not stripped: a reply made to the loaded image path, with at least one
    character that is not whitespace. *)
Theorem run_returns_reply_verbatim (fuel : nat) (self : LlavaDescriptor)
  (w : world) (d : string) (w' : world) :
  run chat fuel self w = Some (Ok d, w') ->
  exists img wa wb,
    input_image_path self = Some img
    /\ chat (llava_model_name self) (prompt self) [img] wa = (Ok d, wb)
    /\ all_space d = false.
Proof.
  intros H. apply run_ok_describe in H as (w1 & w2 & H).
  apply describe_ok_inv in H as (img & wa & Hi & Hc & Hs).
  exists img, wa, w2. split; [exact Hi|]. split; [exact Hc|].
  now apply strip_spec.
Qed.


End LoopMore.

(** X20. Without a loaded image the model is never asked: the outcome of a
    run is the same whatever the model would do, and it is never a
    description. *)
Theorem run_needs_loaded_image
  (chat1 chat2 : string -> string -> list string -> M world string)
  (fuel : nat) (self : LlavaDescriptor) (w : world) :
  input_image_path self = None ->
  run chat1 fuel self w = run chat2 fuel self w
  /\ forall d w', run chat1 fuel self w <> Some (Ok d, w').
Proof.
  intros Hi.
  assert (Hd : forall chat start w0,
             describe chat fuel self start w0
             = if PrimFloat.ltb (PrimFloat.sub (now w0) start) (timeout self)
               then Some (Raise AttributeError, w0)
               else Some (Raise TimeoutError, w0)).
  { intros chat start w0. destruct fuel; cbn [describe]; now rewrite Hi. }
  split.
  - unfold run. destruct (prepare_output fuel self w) as [[[ts|e] w1]|];
      [|reflexivity|reflexivity]. now rewrite !Hd.
  - intros d w' H. apply run_ok_describe in H as (w1 & w2 & H).
    rewrite Hd in H. destruct (PrimFloat.ltb _ _); discriminate.
Qed.

(** *** Setting the descriptor up *)

Lemma llava_init_ok_inv (dir model prompt_text : string) (n : nat)
  (save : bool) (timeout_s : float) (w w' : world) (self : LlavaDescriptor) :
  init dir model prompt_text n save timeout_s w = (Ok self, w') ->
  self = {| script_dir := dir;
            llava_model_name := model;
            prompt := prompt_text;
            iters := n;
            save_file := save;
            timeout := timeout_s;
            output_descriptions_dir :=
              if save then Some (path_join dir ["output_descriptions"]) else None;
            input_image_path := None |}.
Proof.
  unfold init, bind, ret. destruct save.
  - unfold makedirs. destruct (fs w !! _) as [[]|]; try discriminate;
      now intros [= <- _].
  - now intros [= <- _].
Qed.

Lemma load_image_path_ok_inv (self : LlavaDescriptor) (name : string)
  (w w' : world) (self' : LlavaDescriptor) :
  load_image_path self name w = (Ok self', w') ->
  w' = w
  /\ isfile (path_join (script_dir self)
               [".."; ".."; ".."; "input_images"; name]) w = true
  /\ self' = {| script_dir := script_dir self;
               llava_model_name := llava_model_name self;
               prompt := prompt self;
               iters := iters self;
               save_file := save_file self;
               timeout := timeout self;
               output_descriptions_dir := output_descriptions_dir self;
               input_image_path :=
                 Some (path_join (script_dir self)
                         [".."; ".."; ".."; "input_images"; name]) |}.
Proof.
  unfold load_image_path, bind, reads, ret, throw.
  destruct (isfile _ w); [|discriminate]. now intros [= <- <-].
Qed.


Section LoadedDescriptor.

Variable chat : string -> string -> list string -> M world string.

(** After the loop that looks for a free name, making the directory
    succeeds. *)
Lemma prepare_output_never_raises (fuel : nat) (self : LlavaDescriptor)
  (w : world) (e : exn) (w' : world) :
  (save_file self = true -> output_descriptions_dir self <> None) ->
  prepare_output fuel self w <> Some (Raise e, w').
Proof.
  intros Hout. unfold prepare_output.
  destruct (save_file self); [|discriminate].
  destruct (output_descriptions_dir self) as [out|]; [|now destruct Hout].
  set (base := path_join out _).
  destruct (unique_dir fuel base base 1 w) as [d|] eqn:Hd; [|discriminate].
  destruct (unique_dir_some fuel base w 0 d Hd) as (k & _ & Hfree & _).
  unfold makedirs. unfold exists_ in Hfree.
  destruct (fs w !! d); [discriminate Hfree | discriminate].
Qed.

(** X22. A run of a descriptor that was constructed and then given an
    image fails in three ways only: the loop timed out, the model raised,
    or a directory lies where the description file is to be written. It
    does not fail for a missing attribute, and making the timestamped
    directory never fails, the loop before it having found a free name. *)
Theorem loaded_descriptor_errors (dir model prompt_text : string) (n : nat)
  (save : bool) (timeout_s : float) (name : string)
  (w0 w1 w2 w3 : world) (built self : LlavaDescriptor)
  (fuel : nat) (w : world) (e : exn) (w' : world) :
  init dir model prompt_text n save timeout_s w0 = (Ok built, w1) ->
  load_image_path built name w2 = (Ok self, w3) ->
  run chat fuel self w = Some (Raise e, w') ->
  e = TimeoutError
  \/ e = IsADirectoryError
  \/ exists img wa,
       chat (llava_model_name self) (prompt self) [img] wa = (Raise e, w').
Proof.
  intros ->%llava_init_ok_inv (_ & _ & ->)%load_image_path_ok_inv.
  cbn [script_dir llava_model_name prompt iters save_file timeout
       output_descriptions_dir input_image_path].
  set (self := {| script_dir := dir |}).
  unfold run.
  destruct (prepare_output fuel self w) as [[[ts|e0] wp]|] eqn:Hp;
    [| |discriminate].
  2:{ exfalso. revert Hp. apply prepare_output_never_raises.
      subst self. cbn. now intros ->. }
  destruct (describe chat fuel self (now wp) wp) as [[[d|e1] wd]|] eqn:Hd;
    [| |discriminate].
  - unfold prepare_output in Hp. subst self.
    cbn [save_file output_descriptions_dir] in Hp.
    destruct save.
    + destruct (unique_dir _ _ _ _ w); [|discriminate].
      destruct (makedirs _ false w) as [[?|?] ?]; [|discriminate].
      injection Hp as <- <-.
      cbv beta iota delta [save_description bind ret throw attr save_file
                           output_descriptions_dir].
      destruct (write_file _ _ wd) as [[u|e2] ws] eqn:Hw; [discriminate|].
      intros [= <- <-]. right. left.
      unfold write_file in Hw. destruct (fs wd !! _) as [[]|];
        congruence.
    + injection Hp as <- <-. discriminate.
  - intros [= <- <-].
    eapply describe_raise_inv in Hd; [|reflexivity].
    destruct Hd as [-> | [wa Hc]]; [now left|].
    right. right. eauto.
Qed.

End LoadedDescriptor.

Lemma run_returns_reply_verbatim_witness :
  exists img wa wb,
    input_image_path (desk_descriptor true) = Some img
    /\ always_desk (llava_model_name (desk_descriptor true))
         (prompt (desk_descriptor true)) [img] wa = (Ok "a desk", wb)
    /\ all_space "a desk" = false.
Proof.
  exact (run_returns_reply_verbatim always_desk 2 (desk_descriptor true)
           second_run_world "a desk" second_run_result second_run).
Defined.


(** A descriptor that was not given an image. *)
Definition unloaded_descriptor : LlavaDescriptor :=
  {| script_dir := "/app/d";
     llava_model_name := "llava:34b";
     prompt := "Describe the image.";
     iters := 1;
     save_file := false;
     timeout := 1200;
     output_descriptions_dir := None;
     input_image_path := None |}.

Lemma run_needs_loaded_image_witness :
  run always_desk 3 unloaded_descriptor (at_ten [])
  = run blank_then_desk 3 unloaded_descriptor (at_ten [])
  /\ forall d w', run always_desk 3 unloaded_descriptor (at_ten [])
                  <> Some (Ok d, w').
Proof.
  apply (run_needs_loaded_image always_desk blank_then_desk 3
           unloaded_descriptor (at_ten [])).
  reflexivity.
Defined.

(** A source tree with the input image, and the descriptor [__init__] and
    [load_image_path] make in it, without saving and with no time allowed. *)
Definition image_world : world :=
  at_ten [("/app/d/../../../input_images/desk.jpg", File 50 (Picture (Photo "desk")))].

Definition hurried_descriptor (loaded : bool) : LlavaDescriptor :=
  {| script_dir := "/app/d";
     llava_model_name := "llava:34b";
     prompt := "Describe the image.";
     iters := 1;
     save_file := false;
     timeout := 0;
     output_descriptions_dir := None;
     input_image_path :=
       if loaded then Some "/app/d/../../../input_images/desk.jpg" else None |}.

Lemma hurried_init :
  init "/app/d" "llava:34b" "Describe the image." 1 false 0 image_world
  = (Ok (hurried_descriptor false), image_world).
Proof. reflexivity. Qed.

Lemma hurried_load :
  load_image_path (hurried_descriptor false) "desk.jpg" image_world
  = (Ok (hurried_descriptor true), image_world).
Proof. vm_compute. reflexivity. Qed.

Lemma hurried_run :
  run always_desk 1 (hurried_descriptor true) image_world
  = Some (Raise TimeoutError, image_world).
Proof. vm_compute. reflexivity. Qed.

Lemma loaded_descriptor_errors_witness :
  TimeoutError = TimeoutError
  \/ TimeoutError = IsADirectoryError
  \/ exists img wa,
       always_desk (llava_model_name (hurried_descriptor true))
         (prompt (hurried_descriptor true)) [img] wa
       = (Raise TimeoutError, image_world).
Proof.
  exact (loaded_descriptor_errors always_desk "/app/d" "llava:34b"
           "Describe the image." 1 false 0 "desk.jpg"
           image_world image_world image_world image_world
           (hurried_descriptor false) (hurried_descriptor true)
           1 image_world TimeoutError image_world
           hurried_init hurried_load hurried_run).
Defined.

End LlavaMore.

(** ** More on the orchestrator *)

Module PipelineMore.

Import Pipeline PipelineFacts.

(** The attributes a configuration calls for. *)
Definition attributes_match (self : PipelineTLS) : Prop :=
  let sel := selected (tagging_method self) (tagging_submethods self)
               (location_method self) (segmentation_method self) in
  tagger_ram_plus self = (if sel RamPlusTagger then Some RamPlusTagger else None)
  /\ descriptor_llava self
     = (if sel LlavaDescriptor then Some LlavaDescriptor else None)
  /\ extractor_deepseek self
     = (if sel DeepseekKeywordExtractor then Some DeepseekKeywordExtractor else None)
  /\ locator_gdino self
     = (if sel GroundingDinoLocator then Some GroundingDinoLocator else None)
  /\ segmenter_sam2 self
     = (if sel Sam2Segmenter then Some Sam2Segmenter else None).

Section Constructed.

Variable constructs : history -> cls -> list (string * bool) -> result unit.

Lemma new_ok_inv (c : cls) (kw : list (string * bool)) (h h' : history) (o : cls) :
  new constructs c kw h = (Ok o, h') -> o = c.
Proof.
  unfold new. destruct (constructs h c kw); cbn [rbind]; congruence.
Qed.

Lemma init_tagging_ok (method_ : string) (submethods : list string)
  (save : bool) (h h' : history) (t : option cls * option cls * option cls) :
  init_tagging constructs method_ submethods save h = (Ok t, h') ->
  let sel := selected method_ submethods "" "" in
  t = (if sel RamPlusTagger then Some RamPlusTagger else None,
       if sel LlavaDescriptor then Some LlavaDescriptor else None,
       if sel DeepseekKeywordExtractor then Some DeepseekKeywordExtractor else None)
  /\ (String.eqb method_ RAM_PLUS = false -> String.eqb method_ LVLM_LLM = true ->
      2 <= length submethods).
Proof.
  unfold init_tagging. cbn [selected].
  destruct (String.eqb method_ RAM_PLUS) eqn:Hram.
  - apply String.eqb_eq in Hram as ->.
    change (String.eqb RAM_PLUS LVLM_LLM) with false. cbn [andb].
    intros H. apply bind_ok_inv in H as (o & h1 & ->%new_ok_inv & [= <- _]).
    split; [reflexivity | discriminate].
  - destruct (String.eqb method_ LVLM_LLM) eqn:Hlvlm; cbn [andb].
    2:{ intros [= <- _]. split; [reflexivity | discriminate]. }
    intros H.
    apply bind_ok_inv in H as (s0 & h1 & Hs0 & H).
    unfold lift in Hs0. injection Hs0 as Hs0 <-.
    apply index_nth_error in Hs0.
    apply bind_ok_inv in H as (d & h2 & Hd & H).
    apply bind_ok_inv in H as (s1 & h3 & Hs1 & H).
    unfold lift in Hs1. injection Hs1 as Hs1 <-.
    apply index_nth_error in Hs1.
    apply bind_ok_inv in H as (e & h4 & He & H).
    injection H as <- <-. rewrite Hs0, Hs1.
    assert (Hd' : d = if String.eqb s0 LLAVA then Some LlavaDescriptor else None).
    { destruct (String.eqb s0 LLAVA).
      - apply bind_ok_inv in Hd as (o & h5 & ->%new_ok_inv & [= <- _]).
        reflexivity.
      - now injection Hd as <- _. }
    assert (He' : e = if String.eqb s1 DEEPSEEK
                      then Some DeepseekKeywordExtractor else None).
    { destruct (String.eqb s1 DEEPSEEK).
      - apply bind_ok_inv in He as (o & h5 & ->%new_ok_inv & [= <- _]).
        reflexivity.
      - now injection He as <- _. }
    subst d e. split; [reflexivity|]. intros _ _.
    assert (Hsome : nth_error submethods 1 <> None) by congruence.
    apply nth_error_Some in Hsome. lia.
Qed.

Lemma init_ok_inv (method_ : string)
  (submethods : list string) (location segmentation : string) (save : bool)
  (h h' : history) (self : PipelineTLS) :
  init constructs method_ submethods location segmentation save h = (Ok self, h') ->
  tagging_method self = method_
  /\ tagging_submethods self = submethods
  /\ location_method self = location
  /\ segmentation_method self = segmentation
  /\ save_files self = save
  /\ attributes_match self
  /\ (method_ = LVLM_LLM -> 2 <= length submethods).
Proof.
  unfold init. intros H.
  apply bind_ok_inv in H as (t & h1 & Ht & H).
  apply init_tagging_ok in Ht as [-> Hlen].
  apply bind_ok_inv in H as (loc & h2 & Hloc & H).
  apply bind_ok_inv in H as (seg & h3 & Hseg & H).
  injection H as <- <-. cbn.
  assert (Hloc' : loc = if String.eqb location GROUNDING_DINO
                        then Some GroundingDinoLocator else None).
  { destruct (String.eqb location GROUNDING_DINO).
    - apply bind_ok_inv in Hloc as (o & h5 & ->%new_ok_inv & [= <- _]).
      reflexivity.
    - now injection Hloc as <- _. }
  assert (Hseg' : seg = if String.eqb segmentation SAM2
                        then Some Sam2Segmenter else None).
  { destruct (String.eqb segmentation SAM2).
    - apply bind_ok_inv in Hseg as (o & h5 & ->%new_ok_inv & [= <- _]).
      reflexivity.
    - now injection Hseg as <- _. }
  subst loc seg. repeat split.
  intros ->. now apply Hlen.
Qed.

(** X12. An orchestrator that [__init__] returned keeps the configuration
    it was given and has exactly the collaborator attributes that
    configuration selects, each holding an object of its class; and with
    the describe-then-extract method it was given at least two
    sub-methods. *)
Theorem init_sets_selected_attributes (method_ : string)
  (submethods : list string) (location segmentation : string) (save : bool)
  (h h' : history) (self : PipelineTLS) :
  init constructs method_ submethods location segmentation save h = (Ok self, h') ->
  tagging_method self = method_
  /\ tagging_submethods self = submethods
  /\ location_method self = location
  /\ segmentation_method self = segmentation
  /\ save_files self = save
  /\ attributes_match self
  /\ (method_ = LVLM_LLM -> 2 <= length submethods).
Proof. apply init_ok_inv. Qed.

(** X13. The describe-then-extract method cannot be constructed with fewer
    than two sub-methods: [__init__] never returns then. *)
Theorem init_needs_two_submethods (submethods : list string)
  (location segmentation : string) (save : bool) (h : history) :
  length submethods < 2 ->
  forall self h',
    init constructs LVLM_LLM submethods location segmentation save h
    <> (Ok self, h').
Proof.
  intros Hlen self h' H. unfold init in H.
  apply bind_ok_inv in H as (t & h1 & Ht & _).
  apply init_tagging_ok in Ht as [_ Hlen']. specialize (Hlen' eq_refl eq_refl).
  lia.
Qed.

End Constructed.

Lemma half_configured_init :
  init constructs_ok LVLM_LLM [LLAVA; OTHER] GROUNDING_DINO SAM2 false []
  = (Ok half_configured, half_configured_history).
Proof. reflexivity. Qed.

Lemma init_sets_selected_attributes_witness :
  attributes_match half_configured.
Proof.
  exact (proj1 (proj2 (proj2 (proj2 (proj2 (proj2
           (init_sets_selected_attributes constructs_ok LVLM_LLM [LLAVA; OTHER]
              GROUNDING_DINO SAM2 false [] half_configured_history
              half_configured half_configured_init))))))).
Defined.

Lemma init_needs_two_submethods_witness :
  fst (init constructs_ok LVLM_LLM [LLAVA] GROUNDING_DINO SAM2 false [])
  = Raise IndexError.
Proof.
  destruct (init constructs_ok LVLM_LLM [LLAVA] GROUNDING_DINO SAM2 false [])
    as [[self|e] h'] eqn:H.
  - exfalso.
    exact (init_needs_two_submethods constructs_ok [LLAVA] GROUNDING_DINO SAM2
             false [] ltac:(cbn; lia) self h' H).
  - cbv in H. now injection H as <- _.
Defined.

Section Stages.

Variable behaves : history -> cls -> method -> list value -> result value.
Variable clock : history -> float.

(** The history ends with a call that raised [e]. *)
Definition stopped_at_call (e : exn) (h : history) : Prop :=
  exists before c m args, h = before ++ [Called c m args (Raise e)].

Lemma bind_raise_inv {S A B} (c : M S A) (k : A -> M S B) (s s' : S) (e : exn) :
  bind c k s = (Raise e, s') ->
  c s = (Raise e, s') \/ exists a s1, c s = (Ok a, s1) /\ k a s1 = (Raise e, s').
Proof.
  unfold bind. destruct (c s) as [[a|e0] s1]; intros H; [eauto|].
  left. now injection H as -> ->.
Qed.

Lemma call_raise_inv (o : cls) (m : method) (a : list value)
  (h h' : history) (e : exn) :
  call behaves o m a h = (Raise e, h') -> stopped_at_call e h'.
Proof.
  unfold call. intros [= Hr <-]. rewrite Hr. now exists h, o, m, a.
Qed.

(** A chain of calls that raises stopped at the call that raised. *)
Ltac crunch H :=
  cbv beta iota delta [bind lift ret throw attr] in H;
  repeat match type of H with
  | context [call behaves ?o ?m ?a ?h0] =>
      let E := fresh "E" in
      destruct (call behaves o m a h0) as [[?|?] ?] eqn:E;
      [clear E | apply call_raise_inv in E];
      cbv beta iota in H
  end;
  try discriminate H;
  try (injection H as <- <-; assumption).

Lemma location_raise (self : PipelineTLS) (img : string) (v : value)
  (h h' : history) (e : exn) :
  attributes_match self ->
  location behaves self img v h = (Raise e, h') -> stopped_at_call e h'.
Proof.
  intros (_ & _ & _ & Hloc & _). unfold location.
  cbn [selected] in Hloc. rewrite Hloc.
  destruct (String.eqb (location_method self) GROUNDING_DINO); intros H;
    crunch H.
Qed.

Lemma segmentation_raise (self : PipelineTLS) (img : string) (v : value)
  (h h' : history) (e : exn) :
  attributes_match self ->
  segmentation behaves self img v h = (Raise e, h') -> stopped_at_call e h'.
Proof.
  intros (_ & _ & _ & _ & Hseg). unfold segmentation.
  cbn [selected] in Hseg. rewrite Hseg.
  destruct (String.eqb (segmentation_method self) SAM2); intros H; crunch H.
Qed.

Lemma tagging_raise (self : PipelineTLS) (img : string)
  (h h' : history) (e : exn) :
  attributes_match self ->
  (tagging_method self = LVLM_LLM -> 2 <= length (tagging_submethods self)) ->
  tagging behaves self img h = (Raise e, h') ->
  stopped_at_call e h' \/ (e = UnboundLocalError /\ h' = h).
Proof.
  intros (Hram & Hllava & Hdeep & _ & _) Hlen.
  unfold tagging, describe_step, index.
  cbn [selected] in Hram, Hllava, Hdeep.
  destruct (String.eqb (tagging_method self) RAM_PLUS) eqn:Eram.
  { rewrite Hram. intros H. left. crunch H. }
  destruct (String.eqb (tagging_method self) LVLM_LLM) eqn:Elvlm;
    [|discriminate].
  apply String.eqb_eq in Elvlm. specialize (Hlen Elvlm).
  destruct (tagging_submethods self) as [|s0 [|s1 rest]] eqn:Hsubs;
    cbn in Hlen; try lia.
  cbn [nth_error andb] in *. rewrite Hllava, Hdeep.
  intros H. cbv beta iota delta [bind lift ret throw attr] in H.
  destruct (String.eqb s0 LLAVA), (String.eqb s1 DEEPSEEK).
  - left. crunch H.
  - left. crunch H.
  - right. now injection H as <- <-.
  - discriminate H.
Qed.

(** X14. On an orchestrator that [__init__] returned, a stage fails only
    where a collaborator fails: when [location] or [segmentation] raises,
    the history ends with the collaborator call that raised that exception;
    the same holds of [tagging], but for the [UnboundLocalError] it raises,
    before any call, when the second sub-method is the known keyword
    extractor and the first is not the known captioner. No stage raises
    [AttributeError] or [IndexError] of its own. *)
Theorem constructed_stages_fail_at_calls
  (constructs : history -> cls -> list (string * bool) -> result unit)
  (method_ : string) (submethods : list string)
  (location_ segmentation_ : string) (save : bool)
  (h0 h1 : history) (self : PipelineTLS) (img : string) :
  init constructs method_ submethods location_ segmentation_ save h0
  = (Ok self, h1) ->
  (forall h h' e,
     tagging behaves self img h = (Raise e, h') ->
     stopped_at_call e h' \/ (e = UnboundLocalError /\ h' = h))
  /\ (forall v h h' e,
        location behaves self img v h = (Raise e, h') -> stopped_at_call e h')
  /\ (forall v h h' e,
        segmentation behaves self img v h = (Raise e, h') ->
        stopped_at_call e h').
Proof.
  intros Hinit.
  destruct (init_ok_inv _ _ _ _ _ _ _ _ _ Hinit)
    as (Hm & Hs & _ & _ & _ & Hattrs & Hlen).
  split; [|split].
  - intros h h' e. apply tagging_raise; [exact Hattrs|].
    rewrite Hm, Hs. exact Hlen.
  - intros v h h' e. now apply location_raise.
  - intros v h h' e. now apply segmentation_raise.
Qed.

(** X15. A run of a constructed orchestrator that raises stopped where it
    failed: the history ends with the collaborator call that raised the
    exception (or tagging raised [UnboundLocalError] right after the first
    reading of the clock); no later stage was called and the clock was not
    read again. *)
Theorem constructed_run_stops_at_failure
  (constructs : history -> cls -> list (string * bool) -> result unit)
  (method_ : string) (submethods : list string)
  (location_ segmentation_ : string) (save : bool)
  (h0 h1 : history) (self : PipelineTLS) (img : string)
  (h h' : history) (e : exn) :
  init constructs method_ submethods location_ segmentation_ save h0
  = (Ok self, h1) ->
  run behaves clock self img h = (Raise e, h') ->
  stopped_at_call e h'
  \/ (e = UnboundLocalError /\ h' = h ++ [TimeRead (clock h)]).
Proof.
  intros Hinit.
  destruct (init_ok_inv _ _ _ _ _ _ _ _ _ Hinit)
    as (Hm & Hs & _ & _ & _ & Hattrs & Hlen).
  unfold run, time_time. intros H.
  erewrite bind_ok in H by reflexivity.
  apply bind_raise_inv in H as [H | (t & h2 & _ & H)].
  { apply tagging_raise in H; [exact H | exact Hattrs|].
    rewrite Hm, Hs. exact Hlen. }
  apply bind_raise_inv in H as [H | (d & h3 & _ & H)].
  { left. now apply location_raise in H. }
  apply bind_raise_inv in H as [H | (u & h4 & _ & H)].
  { left. now apply segmentation_raise in H. }
  erewrite bind_ok in H by reflexivity. discriminate H.
Qed.

(** X16. What tagging hands on. With the direct method the image name goes
    to the tagger and what its [run] returns is returned. With the two
    known sub-methods the image name goes to the captioner, the very
    description its [run] returns goes to the keyword extractor, and what
    the extractor's [run] returns is returned; nothing else is called. *)
Theorem tagging_hands_values_on (self : PipelineTLS) (img : string)
  (h h' : history) (r : value) :
  tagging behaves self img h = (Ok r, h') ->
  (tagging_method self = RAM_PLUS ->
   exists o r1,
     h' = h ++ [Called o load_image [VStr img] (Ok r1); Called o run_ [] (Ok r)])
  /\ (forall rest,
        tagging_method self = LVLM_LLM ->
        tagging_submethods self = LLAVA :: DEEPSEEK :: rest ->
        exists o1 o2 r1 description r2,
          h' = h ++ [Called o1 load_image_path [VStr img] (Ok r1);
                     Called o1 run_ [] (Ok description);
                     Called o2 load_description [description] (Ok r2);
                     Called o2 run_ [] (Ok r)]).
Proof.
  intros H. split.
  - intros Hm. unfold tagging in H. rewrite Hm in H.
    change (String.eqb RAM_PLUS RAM_PLUS) with true in H. cbv iota in H.
    apply bind_ok_inv in H as (o & h1 & Ho & H).
    unfold attr in Ho. destruct (tagger_ram_plus self); [|discriminate].
    injection Ho as -> <-.
    apply bind_ok_inv in H as (r1 & h2 & ->%call_ok_inv & ->%call_ok_inv).
    exists o, r1. now rewrite <- app_assoc.
  - intros rest Hm Hsubs. unfold tagging, describe_step, index in H.
    rewrite Hm, Hsubs in H. cbn [nth_error] in H.
    change (String.eqb LVLM_LLM RAM_PLUS) with false in H.
    change (String.eqb LVLM_LLM LVLM_LLM) with true in H. cbv iota in H.
    apply bind_ok_inv in H as (d & h1 & Hd & H).
    unfold lift in Hd. erewrite bind_ok in Hd by reflexivity.
    change (String.eqb LLAVA LLAVA) with true in Hd. cbv iota in Hd.
    apply bind_ok_inv in Hd as (o1 & h2 & Ho1 & Hd).
    unfold attr in Ho1. destruct (descriptor_llava self); [|discriminate].
    injection Ho1 as -> <-.
    apply bind_ok_inv in Hd as (r1 & h3 & ->%call_ok_inv & Hd).
    apply bind_ok_inv in Hd as (desc & h4 & ->%call_ok_inv & [= <- <-]).
    unfold lift in H. erewrite bind_ok in H by reflexivity.
    change (String.eqb DEEPSEEK DEEPSEEK) with true in H. cbv iota in H.
    apply bind_ok_inv in H as (o2 & h5 & Ho2 & H).
    unfold attr in Ho2. destruct (extractor_deepseek self); [|discriminate].
    injection Ho2 as -> <-.
    erewrite bind_ok in H by reflexivity.
    apply bind_ok_inv in H as (r2 & h6 & ->%call_ok_inv & ->%call_ok_inv).
    exists o1, o2, r1, desc, r2. now rewrite <- !app_assoc.
Qed.

(** X17. The description is bound only by the known captioner: with the
    describe-then-extract method, the known keyword extractor as second
    sub-method and any other first sub-method, [tagging] on a constructed
    extractor raises [UnboundLocalError] and calls nothing. *)
Theorem tagging_unbound_description (self : PipelineTLS) (img : string)
  (h : history) (s0 : string) (rest : list string) (o : cls) :
  tagging_method self = LVLM_LLM ->
  tagging_submethods self = s0 :: DEEPSEEK :: rest ->
  s0 <> LLAVA ->
  extractor_deepseek self = Some o ->
  tagging behaves self img h = (Raise UnboundLocalError, h).
Proof.
  intros Hm Hsubs Hs0%String.eqb_neq Ho.
  unfold tagging, describe_step, index. rewrite Hm, Hsubs, Ho.
  cbn [nth_error].
  change (String.eqb LVLM_LLM RAM_PLUS) with false.
  change (String.eqb LVLM_LLM LVLM_LLM) with true.
  cbv beta iota delta [bind lift ret attr throw]. rewrite Hs0.
  change (String.eqb DEEPSEEK DEEPSEEK) with true. reflexivity.
Qed.

End Stages.

Lemma constructed_stages_fail_at_calls_witness :
  stopped_at_call TimeoutError
    (half_configured_history
     ++ [Called LlavaDescriptor load_image_path [VStr "desk.jpg"] (Ok VNone);
         Called LlavaDescriptor run_ [] (Raise TimeoutError)])
  \/ (TimeoutError = UnboundLocalError
      /\ half_configured_history
         ++ [Called LlavaDescriptor load_image_path [VStr "desk.jpg"] (Ok VNone);
             Called LlavaDescriptor run_ [] (Raise TimeoutError)]
         = half_configured_history).
Proof.
  apply (proj1 (constructed_stages_fail_at_calls failing_captioner constructs_ok
                  LVLM_LLM [LLAVA; OTHER] GROUNDING_DINO SAM2 false
                  [] half_configured_history half_configured "desk.jpg"
                  half_configured_init)
           half_configured_history).
  reflexivity.
Defined.

Lemma constructed_run_stops_at_failure_witness :
  stopped_at_call TimeoutError
    [TimeRead 100;
     Called LlavaDescriptor load_image_path [VStr "desk.jpg"] (Ok VNone);
     Called LlavaDescriptor run_ [] (Raise TimeoutError)]
  \/ (TimeoutError = UnboundLocalError
      /\ [TimeRead 100;
          Called LlavaDescriptor load_image_path [VStr "desk.jpg"] (Ok VNone);
          Called LlavaDescriptor run_ [] (Raise TimeoutError)]
         = [] ++ [TimeRead (two_readings [])]).
Proof.
  apply (constructed_run_stops_at_failure failing_captioner two_readings
           constructs_ok LVLM_LLM [LLAVA; OTHER] GROUNDING_DINO SAM2 false
           [] half_configured_history half_configured "desk.jpg" []
           _ TimeoutError half_configured_init).
  reflexivity.
Defined.

(** The orchestrator for the two known sub-methods. *)
Definition two_step_configured : PipelineTLS :=
  {| tagging_method := LVLM_LLM;
     tagging_submethods := [LLAVA; DEEPSEEK];
     location_method := GROUNDING_DINO;
     segmentation_method := SAM2;
     save_files := false;
     tagger_ram_plus := None;
     descriptor_llava := Some LlavaDescriptor;
     extractor_deepseek := Some DeepseekKeywordExtractor;
     locator_gdino := Some GroundingDinoLocator;
     segmenter_sam2 := Some Sam2Segmenter |}.

Lemma tagging_hands_values_on_witness :
  exists o1 o2 r1 description r2,
    [Called LlavaDescriptor load_image_path [VStr "desk.jpg"] (Ok VNone);
     Called LlavaDescriptor run_ [] (Ok (VStr "a cup on a desk"));
     Called DeepseekKeywordExtractor load_description [VStr "a cup on a desk"]
       (Ok VNone);
     Called DeepseekKeywordExtractor run_ [] (Ok (VDict [("0", "cup")]))]
    = [] ++ [Called o1 load_image_path [VStr "desk.jpg"] (Ok r1);
             Called o1 run_ [] (Ok description);
             Called o2 load_description [description] (Ok r2);
             Called o2 run_ [] (Ok (VDict [("0", "cup")]))].
Proof.
  apply (proj2 (tagging_hands_values_on cooperative two_step_configured
                  "desk.jpg" [] _ (VDict [("0", "cup")]) eq_refl)
           [] eq_refl eq_refl).
Defined.

(** An orchestrator whose first sub-method is not the known captioner. *)
Definition no_captioner : PipelineTLS :=
  {| tagging_method := LVLM_LLM;
     tagging_submethods := [OTHER; DEEPSEEK];
     location_method := GROUNDING_DINO;
     segmentation_method := SAM2;
     save_files := false;
     tagger_ram_plus := None;
     descriptor_llava := None;
     extractor_deepseek := Some DeepseekKeywordExtractor;
     locator_gdino := Some GroundingDinoLocator;
     segmenter_sam2 := Some Sam2Segmenter |}.

Lemma tagging_unbound_description_witness :
  init constructs_ok LVLM_LLM [OTHER; DEEPSEEK] GROUNDING_DINO SAM2 false []
  = (Ok no_captioner,
     [Constructed DeepseekKeywordExtractor [("save_file", false)] (Ok tt);
      Constructed GroundingDinoLocator
        [("save_file_jpg", false); ("save_file_json", false)] (Ok tt);
      Constructed Sam2Segmenter [] (Ok tt)])
  /\ tagging cooperative no_captioner "desk.jpg" []
     = (Raise UnboundLocalError, []).
Proof.
  split; [reflexivity|].
  apply (tagging_unbound_description cooperative no_captioner "desk.jpg" []
           OTHER [] DeepseekKeywordExtractor); try reflexivity.
  discriminate.
Defined.

End PipelineMore.
